(** * Employee-performance dashboard: the load / filter / aggregate pipeline

    A shallow embedding of [app.py].  The script is a single Streamlit pass:
    it loads a CSV into a pandas DataFrame, cleans a fixed set of columns,
    validates the schema, builds three sidebar controls, filters the table
    with a boolean mask, and renders metrics and charts over the filtered
    rows.

    Modelling conventions
    - A DataFrame is a list of column names together with a list of rows;
      a row maps column names to cells.  A cell is a string, a number or
      the missing marker NaN.
    - The float64 values of the table are idealised as exact rationals
      ([Q]); infinities are not represented.  NaN is the separate
      constructor [CNaN].  The percentages of [value_counts(normalize=True)
      * 100] are computed in binary64 ([PrimFloat]), as pandas does, because
      their rounding is observable.
    - A string is its sequence of Unicode code points.  Whitespace is
      Python's [str.isspace].
    - Exceptions are values of type [exn]; a computation that can raise
      returns a [result].  The rendering pass is a writer over the list of
      UI events it has emitted, and can end by [st.stop()] or by an
      uncaught exception.
    - [pd.read_csv] is the boundary of the model: the table it returns is
      the input of [load_data].  The widgets are the other boundary: the
      values they return in a pass are an input of the pass.  The page
      set-up, the title and the logo (sections 1 to 4) come before the
      table exists and are not part of the pass modelled here; the load
      cache does not change what [load_data] returns.

    Library behaviour the model relies on
    - [astype(str)] turns every element into its text.  What it does to
      NaN depends on the pandas the script runs on, which the repository
      does not pin: before pandas 3 NaN becomes the text "nan"; from
      pandas 3 on NaN stays missing.  The loader takes this as the
      parameter [nan_as_text].
    - [st.sidebar.slider] raises when [min_value] is not below
      [max_value].
    - [df[[c1, ..., cn]]] raises one [KeyError] that lists every absent
      column.
    - [isin], [unique], [value_counts] and [groupby] compare by value and
      take NaN equal to NaN; [value_counts] and [groupby] drop NaN keys;
      [mean], [nanmin] and [nanmax] skip NaN.
    - [sorted] and the sort behind [value_counts] are stable.
    - Ordering or averaging a string with a number raises [TypeError]. *)

From Stdlib Require Import ZArith NArith QArith Qround Ascii String DecimalString List Sorted Lia.
From Stdlib Require PrimFloat Uint63.
From stdpp Require Import base option list gmap strings.

Local Open Scope string_scope.
Local Open Scope list_scope.

(* ================================================================== *)
(** ** Exceptions and the [result] monad *)

Inductive exn :=
| KeyError (c : string)
| KeyErrorList (absent : list string)
| ValueError
| TypeError
| IndexError
| StreamlitAPIException.

Inductive result (A : Type) :=
| Ok (a : A)
| Raise (e : exn).
Arguments Ok {A} a.
Arguments Raise {A} e.

#[global] Instance result_ret : MRet result := fun A a => Ok a.
#[global] Instance result_bind : MBind result := fun A B f m =>
  match m with
  | Ok a => f a
  | Raise e => Raise e
  end.

Definition is_Ok {A} (r : result A) : Prop :=
  match r with Ok _ => True | Raise _ => False end.

(* ================================================================== *)
(** ** Cells and Series *)

(** A Python [str]: its code points. *)
Abbreviation text := (list N).

(** The text of an ASCII literal. *)
Definition txt (s : string) : text :=
  map N_of_ascii (list_ascii_of_string s).

(** [==] and [<=] of two strings: code point by code point. *)
Fixpoint text_eqb (s t : text) : bool :=
  match s, t with
  | [], [] => true
  | a :: s', b :: t' => N.eqb a b && text_eqb s' t'
  | _, _ => false
  end.

Fixpoint text_leb (s t : text) : bool :=
  match s, t with
  | [], _ => true
  | _ :: _, [] => false
  | a :: s', b :: t' =>
      match N.compare a b with
      | Lt => true
      | Eq => text_leb s' t'
      | Gt => false
      end
  end.

Inductive cell :=
| CStr (s : text)
| CNum (x : Q)
| CNaN.

(** A pandas Series, without its index: the cells of one column, in row
    order. *)
Abbreviation Series := (list cell).

Definition isna (c : cell) : bool :=
  match c with CNaN => true | _ => false end.

Definition is_str (c : cell) : bool :=
  match c with CStr _ => true | _ => false end.

Definition is_num (c : cell) : bool :=
  match c with CNum _ => true | _ => false end.

(** Equality of cell values, as the hash tables behind [isin], [unique],
    [value_counts] and [groupby] see it: numbers by value, strings by
    content, and NaN equal to NaN. *)
Definition cell_eqb (a b : cell) : bool :=
  match a, b with
  | CStr s, CStr t => text_eqb s t
  | CNum x, CNum y => Qeq_bool x y
  | CNaN, CNaN => true
  | _, _ => false
  end.

(** [Series.dropna()] *)
Definition dropna (s : Series) : Series :=
  List.filter (fun c => negb (isna c)) s.

(** [Series.unique()]: distinct values in order of first appearance. *)
Fixpoint unique (s : Series) : Series :=
  match s with
  | [] => []
  | c :: s' => c :: List.filter (fun d => negb (cell_eqb c d)) (unique s')
  end.

(** [Series.isin(values)]: an element-wise membership mask. *)
Definition cell_in (c : cell) (values : list cell) : bool :=
  existsb (cell_eqb c) values.

Definition isin (s : Series) (values : list cell) : list bool :=
  map (fun c => cell_in c values) s.

(** [Series.between(left, right)], inclusive on both ends; the bounds are
    the integers the slider returns.  NaN compares false.  A string is
    not comparable to a number: with a string in the column the
    comparison raises [TypeError]. *)
Definition between1 (lo hi : Z) (c : cell) : bool :=
  match c with
  | CNum x => Qle_bool (inject_Z lo) x && Qle_bool x (inject_Z hi)
  | _ => false
  end.

Definition between (s : Series) (lo hi : Z) : result (list bool) :=
  if existsb is_str s then Raise TypeError
  else Ok (map (between1 lo hi) s).

(** Element-wise [&] of two masks. *)
Definition mask_and (m1 m2 : list bool) : list bool :=
  zip_with andb m1 m2.

(** Boolean indexing [x[mask]]: keep the positions where the mask is
    true. *)
Fixpoint select {A} (l : list A) (mask : list bool) : list A :=
  match l, mask with
  | x :: l', b :: mask' => if b then x :: select l' mask' else select l' mask'
  | _, _ => []
  end.

(* ================================================================== *)
(** ** Strings: [str.strip()] *)

(** [str.isspace]: TAB, LF, VT, FF, CR, the four separators 0x1c-0x1f,
    the space, NEL, the no-break space and the Unicode space separators
    U+1680, U+2000-U+200A, U+2028, U+2029, U+202F, U+205F, U+3000. *)
Definition is_space (a : N) : bool :=
  ((9 <=? a) && (a <=? 13) || (28 <=? a) && (a <=? 32)
   || (a =? 133) || (a =? 160) || (a =? 5760)
   || (8192 <=? a) && (a <=? 8202)
   || (a =? 8232) || (a =? 8233) || (a =? 8239) || (a =? 8287)
   || (a =? 12288))%N.

Fixpoint lstrip (s : text) : text :=
  match s with
  | [] => []
  | a :: s' => if is_space a then lstrip s' else s
  end.

Fixpoint rstrip (s : text) : text :=
  match s with
  | [] => []
  | a :: s' =>
      match rstrip s' with
      | [] => if is_space a then [] else [a]
      | t => a :: t
      end
  end.

Definition strip (s : text) : text := rstrip (lstrip s).

Definition first_char (s : text) : option N :=
  match s with
  | [] => None
  | a :: _ => Some a
  end.

Fixpoint last_char (s : text) : option N :=
  match s with
  | [] => None
  | [a] => Some a
  | _ :: s' => last_char s'
  end.

(** A string is trimmed when neither its first nor its last character is
    whitespace. *)
Definition trimmed (s : text) : Prop :=
  (forall a, first_char s = Some a -> is_space a = false) /\
  (forall a, last_char s = Some a -> is_space a = false).

(* ================================================================== *)
(** ** DataFrames *)

Record DataFrame := mkDF {
  columns : list string;
  rows : list (gmap string cell)
}.

(** The cell of a row under a column; a row that has no field for the
    column reads as NaN, as [read_csv] pads short lines. *)
Definition at_col (c : string) (r : gmap string cell) : cell :=
  default CNaN (r !! c).

(** [df[c]] read: raises [KeyError] when [c] is not a column. *)
Definition getcol (df : DataFrame) (c : string) : result Series :=
  if decide (c ∈ columns df) then Ok (map (at_col c) (rows df))
  else Raise (KeyError c).

(** [df[c] = s] write: replaces the column, or appends a new one. *)
Definition setcol (df : DataFrame) (c : string) (s : Series) : DataFrame :=
  mkDF (if decide (c ∈ columns df) then columns df else columns df ++ [c])
       (zip_with (fun r v => <[c := v]> r) (rows df) s).

(** [df[mask]]: the rows where the mask is true, same columns. *)
Definition getmask (df : DataFrame) (mask : list bool) : DataFrame :=
  mkDF (columns df) (select (rows df) mask).

(** [len(df)] *)
Definition len (df : DataFrame) : nat := length (rows df).

(* ================================================================== *)
(** ** 5) Loading *)

Section Loader.

(** The numeric-literal grammar of [pd.to_numeric] and the text pandas
    prints for a float are library behaviour; the loader is written
    over them. *)
Variable parse_float : text -> option Q.
Variable repr_float : Q -> text.

(** What [.astype(str)] does to a missing value: [true] on pandas before
    version 3 (NaN becomes the three letters "nan"), [false] from pandas 3
    on (NaN stays missing). *)
Variable nan_as_text : bool.

(** [.astype(str)]: every element becomes its text. *)
Definition astype_str1 (c : cell) : cell :=
  match c with
  | CStr s => CStr s
  | CNum x => CStr (repr_float x)
  | CNaN => if nan_as_text then CStr (txt "nan") else CNaN
  end.

Definition astype_str (s : Series) : Series := map astype_str1 s.

(** [.str.strip()]: strips string elements; other elements give NaN. *)
Definition str_strip1 (c : cell) : cell :=
  match c with
  | CStr s => CStr (strip s)
  | _ => CNaN
  end.

Definition str_strip (s : Series) : Series := map str_strip1 s.

(** [pd.to_numeric(s, errors="coerce")] *)
Definition to_numeric1 (c : cell) : cell :=
  match c with
  | CStr s => match parse_float s with
              | Some x => CNum x
              | None => CNaN
              end
  | CNum x => CNum x
  | CNaN => CNaN
  end.

Definition to_numeric (s : Series) : Series := map to_numeric1 s.

Definition numeric_cols : list string :=
  ["performance_score"; "salary"; "average_work_hours"; "age"].

(** The [for col in [...]] loop of [load_data]. *)
Fixpoint coerce_cols (cols : list string) (df : DataFrame) : result DataFrame :=
  match cols with
  | [] => Ok df
  | c :: cols' =>
      s ← getcol df c;
      coerce_cols cols' (setcol df c (to_numeric s))
  end.

(** [load_data], applied to the table [pd.read_csv(path)] returned. *)
Definition load_data (csv : DataFrame) : result DataFrame :=
  dep ← getcol csv "department";
  let df1 := setcol csv "department" (str_strip (astype_str dep)) in
  gen ← getcol df1 "gender";
  let df2 := setcol df1 "gender" (str_strip (astype_str gen)) in
  coerce_cols numeric_cols df2.

(** The columns [load_data] reads. *)
Definition loader_cols : list string :=
  ["department"; "gender"; "performance_score"; "salary";
   "average_work_hours"; "age"].

(** What [load_data] does to one row, column assignment by column
    assignment (used to state results; [load_data_rows] proves the
    agreement). *)
Definition clean (c : string) (r : gmap string cell) : gmap string cell :=
  <[c := str_strip1 (astype_str1 (at_col c r))]> r.

Definition coerce (c : string) (r : gmap string cell) : gmap string cell :=
  <[c := to_numeric1 (at_col c r)]> r.

Definition load_row (r : gmap string cell) : gmap string cell :=
  coerce "age"
    (coerce "average_work_hours"
       (coerce "salary"
          (coerce "performance_score"
             (clean "gender" (clean "department" r))))).

End Loader.

(* ================================================================== *)
(** ** Sorting, as Python's [sorted] and pandas' [sort_index] do *)

(** Python orders strings by code point and numbers by value, and raises
    [TypeError] when asked to order a string against a number. *)
Definition cell_leb (a b : cell) : bool :=
  match a, b with
  | CStr s, CStr t => text_leb s t
  | CNum x, CNum y => Qle_bool x y
  | _, _ => false
  end.

Fixpoint insert_by {A} (leb : A -> A -> bool) (x : A) (l : list A) : list A :=
  match l with
  | [] => [x]
  | y :: l' => if leb x y then x :: l else y :: insert_by leb x l'
  end.

(** A stable insertion sort. *)
Definition sort_by {A} (leb : A -> A -> bool) (l : list A) : list A :=
  foldr (insert_by leb) [] l.

Definition homogeneous (l : list cell) : bool :=
  forallb is_str l || forallb is_num l.

(** The kind of the elements of a homogeneous list. *)
Definition same_kind (l : list cell) (c : cell) : Prop :=
  if forallb is_str l then is_str c = true else is_num c = true.

(** [sorted(l)].  The lists sorted in the script hold no NaN: it is
    dropped before. *)
Definition py_sorted (l : list cell) : result (list cell) :=
  if homogeneous l then Ok (sort_by cell_leb l) else Raise TypeError.

(** [.sort_index()] of a Series whose index labels are the first
    components. *)
Definition sort_index {A} (l : list (cell * A)) : result (list (cell * A)) :=
  if homogeneous (map fst l)
  then Ok (sort_by (fun p q => cell_leb (fst p) (fst q)) l)
  else Raise TypeError.

(* ================================================================== *)
(** ** Aggregates *)

(** The numbers of a Series, NaN skipped. *)
Fixpoint nums (s : Series) : list Q :=
  match s with
  | [] => []
  | CNum x :: s' => x :: nums s'
  | _ :: s' => nums s'
  end.

Definition qsum (l : list Q) : Q := foldr Qplus 0%Q l.

Definition qcount (l : list Q) : Q := inject_Z (Z.of_nat (length l)).

(** [Series.mean()]: NaN is skipped, the mean of no value is NaN, and a
    string in the column raises. *)
Definition mean (s : Series) : result cell :=
  if existsb is_str s then Raise TypeError
  else match nums s with
       | [] => Ok CNaN
       | xs => Ok (CNum (qsum xs / qcount xs))
       end.

Definition count_eq (k : cell) (s : Series) : nat :=
  length (List.filter (cell_eqb k) s).

(** [Series.value_counts()]: the distinct non-missing values with their
    number of occurrences, most frequent first.  Equal counts keep the
    order of first appearance. *)
Definition value_counts (s : Series) : list (cell * nat) :=
  let present := dropna s in
  sort_by (fun p q => (snd q <=? snd p)%nat)
          (map (fun k => (k, count_eq k present)) (unique present)).

Definition total (vc : list (cell * nat)) : nat :=
  foldr (fun p acc => (snd p + acc)%nat) 0%nat vc.

(** The float64 of an int64 count. *)
Definition float_of_nat (n : nat) : PrimFloat.float :=
  PrimFloat.of_uint63 (Uint63.of_Z (Z.of_nat n)).

(** The share of [n] occurrences among [all], in per cent, as pandas
    computes it: the quotient in float64, then the product by 100. *)
Definition pct (n all : nat) : PrimFloat.float :=
  PrimFloat.mul (PrimFloat.div (float_of_nat n) (float_of_nat all))
                (float_of_nat 100).

(** [Series.value_counts(normalize=True) * 100] *)
Definition value_counts_pct (s : Series) : list (cell * PrimFloat.float) :=
  let vc := value_counts s in
  let n := total vc in
  map (fun p => (fst p, pct (snd p) n)) vc.

Fixpoint traverse {A B} (f : A -> result B) (l : list A) : result (list B) :=
  match l with
  | [] => Ok []
  | x :: l' => y ← f x; ys ← traverse f l'; Ok (y :: ys)
  end.

(** The values of [vals] on the rows whose key is [k]. *)
Definition group (k : cell) (keys vals : Series) : Series :=
  select vals (map (cell_eqb k) keys).

(** [df.groupby(key)[val].mean()]: one entry per distinct non-missing
    key, keys in ascending order. *)
Definition groupby_mean (keys vals : Series) : result (list (cell * cell)) :=
  ks ← py_sorted (unique (dropna keys));
  traverse (fun k => m ← mean (group k keys vals); Ok (k, m)) ks.

(** [int(x)] of a float: truncation toward zero. *)
Definition trunc (x : Q) : Z := Z.quot (Qnum x) (Zpos (Qden x)).

Definition qmin (x y : Q) : Q := if Qle_bool x y then x else y.
Definition qmax (x y : Q) : Q := if Qle_bool x y then y else x.

(** [int(np.nanmin(s))] and [int(np.nanmax(s))].  With no number in the
    column numpy returns NaN, and [int] of NaN raises [ValueError]. *)
Definition int_nanmin (s : Series) : result Z :=
  if existsb is_str s then Raise TypeError
  else match nums s with
       | [] => Raise ValueError
       | x :: xs => Ok (trunc (foldl qmin x xs))
       end.

Definition int_nanmax (s : Series) : result Z :=
  if existsb is_str s then Raise TypeError
  else match nums s with
       | [] => Raise ValueError
       | x :: xs => Ok (trunc (foldl qmax x xs))
       end.

(* ================================================================== *)
(** ** The rendering pass *)

(** What a pass shows, in order.  Static text (title, headers, axis
    labels) is not recorded.  The correlation coefficient of the
    conclusions needs a square root and is left out of the last event. *)
Inductive event :=
| StError (missing : list string)
| SidebarCount (n all : nat)
| StWarning
| MetricCount (n : nat)
| MetricMean (column : string) (value : cell)
| ScoreDistribution (counts : list (cell * nat))
| HoursByGender (avg_hours : list (cell * cell))
| AgeSalary (age salary : Series)
| HoursByScore (avg_by_score : list (cell * cell))
| DataTable (view : DataFrame)
| Download (view : DataFrame)
| Conclusions (top_desc : cell) (top_pct : PrimFloat.float)
              (perf sat absn : cell).

(** How a pass ends: it runs to the end of the script, [st.stop()] ends
    it early, or an exception escapes. *)
Inductive outcome (A : Type) :=
| Done (a : A)
| Stopped
| Crashed (e : exn).
Arguments Done {A} a.
Arguments Stopped {A}.
Arguments Crashed {A} e.

Definition script (A : Type) : Type := (list event * outcome A)%type.

#[global] Instance script_ret : MRet script := fun A a => ([], Done a).
#[global] Instance script_bind : MBind script := fun A B f m =>
  match m with
  | (log, Done a) => let (log', o) := f a in (log ++ log', o)
  | (log, Stopped) => (log, Stopped)
  | (log, Crashed e) => (log, Crashed e)
  end.

Definition emit (e : event) : script unit := ([e], Done tt).

Definition st_stop {A} : script A := ([], Stopped).

Definition lift {A} (r : result A) : script A :=
  match r with
  | Ok a => ([], Done a)
  | Raise e => ([], Crashed e)
  end.

(** A pass that only shows events satisfying [P]. *)
Definition shows_only {A} (P : event -> Prop) (m : script A) : Prop :=
  Forall P (fst m).

Definition not_StError (e : event) : Prop :=
  match e with StError _ => False | _ => True end.

(** The values the three sidebar widgets return in this pass. *)
Record widgets := mkWidgets {
  gender_sel : list cell;
  score_range : Z * Z;
  marital_sel : list cell
}.

Definition required_cols : list string :=
  ["gender"; "performance_score"; "marital_status";
   "average_work_hours"; "age"; "salary"].

(** [[c for c in required_cols if c not in df.columns]] *)
Definition missing_cols (df : DataFrame) : list string :=
  List.filter (fun c => negb (bool_decide (c ∈ columns df))) required_cols.

(** The "validación rápida": report the missing columns and stop. *)
Definition validate (df : DataFrame) : script unit :=
  match missing_cols df with
  | [] => mret tt
  | missing => emit (StError missing);; st_stop
  end.

(** [sorted(df[c].dropna().unique().tolist())] *)
Definition options (s : Series) : result (list cell) :=
  py_sorted (unique (dropna s)).

Definition gender_options (df : DataFrame) : result (list cell) :=
  g ← getcol df "gender"; options g.

Definition marital_options (df : DataFrame) : result (list cell) :=
  m ← getcol df "marital_status"; options m.

Definition min_score (df : DataFrame) : result Z :=
  p ← getcol df "performance_score"; int_nanmin p.

Definition max_score (df : DataFrame) : result Z :=
  p ← getcol df "performance_score"; int_nanmax p.

(** A column without strings, as [pd.to_numeric] leaves it. *)
Definition numeric_column (df : DataFrame) (c : string) : Prop :=
  existsb is_str (map (at_col c) (rows df)) = false.

(** The mask of the filter expression, operand by operand. *)
Definition filter_mask (df : DataFrame) (w : widgets) : result (list bool) :=
  g ← getcol df "gender";
  let by_gender := isin g (gender_sel w) in
  p ← getcol df "performance_score";
  by_score ← between p (fst (score_range w)) (snd (score_range w));
  m ← getcol df "marital_status";
  Ok (mask_and (mask_and by_gender by_score) (isin m (marital_sel w))).

(** [df_f = df[...].copy()] *)
Definition df_f (df : DataFrame) (w : widgets) : result DataFrame :=
  mask ← filter_mask df w; Ok (getmask df mask).

(** The filter expression read on one row. *)
Definition keeps (w : widgets) (r : gmap string cell) : bool :=
  cell_in (at_col "gender" r) (gender_sel w) &&
  between1 (fst (score_range w)) (snd (score_range w))
           (at_col "performance_score" r) &&
  cell_in (at_col "marital_status" r) (marital_sel w).

(** The inclusion rule in the words of the specification: membership and
    range are tests on values, and a missing cell has no value. *)
Definition same_value (c v : cell) : Prop :=
  match c, v with
  | CStr s, CStr t => s = t
  | CNum x, CNum y => (x == y)%Q
  | _, _ => False
  end.

Definition member (c : cell) (selection : list cell) : Prop :=
  exists v, In v selection /\ same_value c v.

Definition in_range (lo hi : Z) (c : cell) : Prop :=
  exists x, c = CNum x /\ (inject_Z lo <= x)%Q /\ (x <= inject_Z hi)%Q.

Definition included (w : widgets) (r : gmap string cell) : Prop :=
  member (at_col "gender" r) (gender_sel w) /\
  in_range (fst (score_range w)) (snd (score_range w))
           (at_col "performance_score" r) /\
  member (at_col "marital_status" r) (marital_sel w).


(** "Within that group": [rows_with c k rws sel] when [sel] are, in
    order, the rows of [rws] whose cell under [c] has the value [k]. *)
Inductive rows_with (c : string) (k : cell)
  : list (gmap string cell) -> list (gmap string cell) -> Prop :=
| rows_with_nil : rows_with c k [] []
| rows_with_hit r rws sel :
    same_value (at_col c r) k -> rows_with c k rws sel ->
    rows_with c k (r :: rws) (r :: sel)
| rows_with_miss r rws sel :
    ~ same_value (at_col c r) k -> rows_with c k rws sel ->
    rows_with c k (r :: rws) sel.


(** The rows that hold a value under a column. *)
Definition present (c : string) (rws : list (gmap string cell))
  : list (gmap string cell) :=
  List.filter (fun r => match at_col c r with CNaN => false | _ => true end) rws.





(** A row with a value in each of the three filtered columns. *)
Definition complete_row (r : gmap string cell) : bool :=
  negb (isna (at_col "gender" r)) &&
  negb (isna (at_col "performance_score" r)) &&
  negb (isna (at_col "marital_status" r)).

Definition table_cols : list string :=
  ["id_employee"; "name_employee"; "gender"; "marital_status";
   "department"; "position"; "performance_score"; "salary";
   "average_work_hours"; "age"; "employment_status"].

(** [df[[c1, ..., cn]]]: raises one [KeyError] that lists every absent
    column. *)
Definition getcols (df : DataFrame) (cs : list string) : result DataFrame :=
  match List.filter (fun c => negb (bool_decide (c ∈ columns df))) cs with
  | [] => Ok (mkDF cs (List.map (fun r => filter (fun kv => kv.1 ∈ cs) r) (rows df)))
  | absent => Raise (KeyErrorList absent)
  end.

(** [s.index[0]] and [s.iloc[0]] *)
Definition first_entry {A B} (l : list (A * B)) : result (A * B) :=
  match l with
  | [] => Raise IndexError
  | p :: _ => Ok p
  end.

(** [view.groupby(g)[v].mean().sort_index()] *)
Definition groupedMean (view : DataFrame) (g v : string)
  : result (list (cell * cell)) :=
  keys ← getcol view g;
  vals ← getcol view v;
  by_key ← groupby_mean keys vals;
  sort_index by_key.

(** [view[c].value_counts(normalize=True) * 100] *)
Definition valueCounts_pct (view : DataFrame) (c : string)
  : result (list (cell * PrimFloat.float)) :=
  s ← getcol view c; Ok (value_counts_pct s).

(** Sections 7 to 10 of the script: everything below the empty-view
    guard, statement by statement. *)
Definition render (view : DataFrame) : script unit :=
  emit (MetricCount (len view));;
  perf_mean ← lift (perf ← getcol view "performance_score"; mean perf);
  emit (MetricMean "performance_score" perf_mean);;
  sat_mean ← lift (sat ← getcol view "satisfaction_level"; mean sat);
  emit (MetricMean "satisfaction_level" sat_mean);;
  abs_mean ← lift (absn ← getcol view "absences"; mean absn);
  emit (MetricMean "absences" abs_mean);;
  counts ← lift (perf ← getcol view "performance_score";
                 sort_index (value_counts perf));
  emit (ScoreDistribution counts);;
  avg_hours ← lift (groupedMean view "gender" "average_work_hours");
  emit (HoursByGender avg_hours);;
  age ← lift (getcol view "age");
  salary ← lift (getcol view "salary");
  emit (AgeSalary age salary);;
  avg_by_score ← lift (groupedMean view "performance_score" "average_work_hours");
  emit (HoursByScore avg_by_score);;
  shown ← lift (getcols view table_cols);
  emit (DataTable shown);;
  emit (Download view);;
  top ← lift (perf_counts ← valueCounts_pct view "performance_score_desc";
              first_entry perf_counts);
  emit (Conclusions (fst top) (snd top) perf_mean sat_mean abs_mean).

(** [st.sidebar.slider(label, min_value, max_value, value=(min_value,
    max_value), step=1)]: Streamlit refuses a slider whose [min_value] is
    not below its [max_value].  The range the widget returns is an input
    of the pass. *)
Definition slider (min_value max_value : Z) : result unit :=
  if (min_value <? max_value)%Z then Ok tt else Raise StreamlitAPIException.

(** Sections 6 to 10 of the script: the sidebar controls, the filter, the
    empty-view guard and the rendering. *)
Definition dashboard (df : DataFrame) (w : widgets) : script unit :=
  _ ← lift (gender_options df);
  lo ← lift (min_score df);
  hi ← lift (max_score df);
  _ ← lift (slider lo hi);
  _ ← lift (marital_options df);
  view ← lift (df_f df w);
  emit (SidebarCount (len view) (len df));;
  (if (len view =? 0)%nat then emit StWarning;; st_stop else mret tt);;
  render view.

Section App.

Variable parse_float : text -> option Q.
Variable repr_float : Q -> text.
Variable nan_as_text : bool.

(** One pass of the script, from [load_data] on. *)
Definition app (csv : DataFrame) (w : widgets) : script unit :=
  df ← lift (load_data parse_float repr_float nan_as_text csv);
  validate df;;
  dashboard df w.

End App.

(* ================================================================== *)
(** ** A sample instance of the two library functions

    Used by the examples: plain decimal literals with an optional minus
    sign, and the printing of integer-valued floats (["3.0"]). *)

Definition digit (a : N) : option Z :=
  if ((48 <=? a) && (a <=? 57))%N then Some (Z.of_N a - 48)%Z else None.

Fixpoint parse_digits (s : text) (num : Z) (den : positive)
                      (dot any : bool) : option Q :=
  match s with
  | [] => if any then Some (num # den) else None
  | a :: s' =>
      match digit a with
      | Some d =>
          parse_digits s' (10 * num + d)%Z
                       (if dot then (10 * den)%positive else den) dot true
      | None =>
          if (a =? 46)%N && negb dot
          then parse_digits s' num den true any
          else None
      end
  end.

Definition parse_decimal (s : text) : option Q :=
  match s with
  | 45%N :: s' => Qopp <$> parse_digits s' 0 1 false false
  | _ => parse_digits s 0 1 false false
  end.

Definition repr_integral (x : Q) : text :=
  txt (DecimalString.NilZero.string_of_int (Z.to_int (trunc x)) ++ ".0").

(** The samples are evaluated as pandas 2 runs them where nothing else is
    said, and as pandas 3 does where the two differ. *)
Definition pandas2 : bool := true.
Definition pandas3 : bool := false.

Definition row_of (l : list (string * cell)) : gmap string cell :=
  list_to_map l.

(** ** Sample tables

    [employees] is the scenario of the specification: genders M and F with
    one "M " stored untrimmed, two marital statuses, scores 1 to 4.
    [messy] has what a real export has: an unparseable score, a missing
    gender, a missing marital status and a missing label.  [no_marital]
    lacks the one required column the loader does not read. *)

Definition header : list string :=
  ["id_employee"; "name_employee"; "gender"; "marital_status";
   "department"; "position"; "performance_score";
   "performance_score_desc"; "salary"; "average_work_hours"; "age";
   "satisfaction_level"; "absences"; "employment_status"].

Definition employee (id : Z) (gender marital score desc hours : cell)
  : gmap string cell :=
  row_of [("id_employee", CNum (inject_Z id)); ("name_employee", CStr (txt "n/a"));
          ("gender", gender); ("marital_status", marital);
          ("department", CStr (txt " Sales")); ("position", CStr (txt "Analyst"));
          ("performance_score", score); ("performance_score_desc", desc);
          ("salary", CNum 20000); ("average_work_hours", hours);
          ("age", CNum 30); ("satisfaction_level", CNum 3);
          ("absences", CNum 2); ("employment_status", CStr (txt "Active"))].

Definition employees : DataFrame :=
  mkDF header
    [employee 1 (CStr (txt "M ")) (CStr (txt "Single")) (CNum 3) (CStr (txt "Meets")) (CNum 40);
     employee 2 (CStr (txt "F")) (CStr (txt "Married")) (CNum 2) (CStr (txt "Needs")) (CNum 30);
     employee 3 (CStr (txt "M")) (CStr (txt "Married")) (CNum 1) (CStr (txt "PIP")) (CNum 44);
     employee 4 (CStr (txt "F")) (CStr (txt "Single")) (CNum 4) (CStr (txt "Meets")) (CNum 36)].

Definition messy : DataFrame :=
  mkDF header
    [employee 1 (CStr (txt "M ")) (CStr (txt "Single")) (CStr (txt "3")) (CStr (txt "Meets")) (CNum 40);
     employee 2 CNaN (CStr (txt "Married")) (CStr (txt "4")) CNaN (CNum 30);
     employee 3 (CStr (txt "F")) CNaN (CStr (txt "n.d.")) (CStr (txt "Meets")) CNaN].


(** Two employees, one with a score of 4.5. *)
Definition fractional : DataFrame :=
  mkDF header
    [employee 1 (CStr (txt "M")) (CStr (txt "Single")) (CNum 1) (CStr (txt "PIP")) (CNum 40);
     employee 2 (CStr (txt "F")) (CStr (txt "Married")) (CNum (9 # 2)) (CStr (txt "Exceeds")) (CNum 30)].

Definition no_salary : DataFrame :=
  mkDF (List.filter (fun c => negb (String.eqb c "salary")) header)
       (map (delete "salary") (rows employees)).

(** Widget values: the scenario of the specification, a selection that
    no employee matches, and the defaults of the controls over
    [employees] and over [fractional]. *)
Definition scenario : widgets :=
  mkWidgets [CStr (txt "M")] (2, 4)%Z [CStr (txt "Single")].


Definition defaults : widgets :=
  mkWidgets [CStr (txt "F"); CStr (txt "M")] (1, 4)%Z [CStr (txt "Married"); CStr (txt "Single")].




(** Four employees with the scores 1, 2.5, 0.5 and 4. *)
Definition halves : DataFrame :=
  mkDF header
    [employee 1 (CStr (txt "M")) (CStr (txt "Single")) (CNum 1) (CStr (txt "PIP")) (CNum 40);
     employee 2 (CStr (txt "F")) (CStr (txt "Married")) (CNum (5 # 2)) (CStr (txt "Needs")) (CNum 30);
     employee 3 (CStr (txt "M")) (CStr (txt "Married")) (CNum (1 # 2)) (CStr (txt "PIP")) (CNum 44);
     employee 4 (CStr (txt "F")) (CStr (txt "Single")) (CNum 4) (CStr (txt "Meets")) (CNum 36)].

(** Two employees, the first without a performance label. *)
Definition unlabelled : DataFrame :=
  mkDF header
    [employee 1 (CStr (txt "F")) (CStr (txt "Single")) (CNum 3) CNaN (CNum 40);
     employee 2 (CStr (txt "M")) (CStr (txt "Married")) (CNum 4) (CStr (txt "Meets")) (CNum 30)].


(** "M" followed by a no-break space. *)
Definition m_nbsp : text := [77; 160]%N.

(** Four employees, the gender of three of them spelt "M " with a space,
    "M" with a no-break space and " M". *)
Definition spellings : DataFrame :=
  mkDF header
    [employee 1 (CStr (txt "M ")) (CStr (txt "Single")) (CNum 1) (CStr (txt "PIP")) (CNum 40);
     employee 2 (CStr m_nbsp) (CStr (txt "Married")) (CNum 2) (CStr (txt "Needs")) (CNum 30);
     employee 3 (CStr (txt " M")) (CStr (txt "Married")) (CNum 3) (CStr (txt "Meets")) (CNum 44);
     employee 4 (CStr (txt "F")) (CStr (txt "Single")) (CNum 4) (CStr (txt "Meets")) (CNum 36)].

(** The table a sample loads to. *)
Definition loaded (csv : DataFrame) : DataFrame :=
  match load_data parse_decimal repr_integral pandas2 csv with
  | Ok df => df
  | Raise _ => csv
  end.


(* ================================================================== *)
(** ** Vocabulary of the further properties *)

(** A string of whitespace only. *)
Fixpoint all_space (s : text) : bool :=
  match s with
  | [] => true
  | a :: s' => is_space a && all_space s'
  end.

(** Every column the script reads: the loader's, the validated ones, the
    two extra metrics, the label of the conclusions and the columns of the
    detail table. *)
Definition used_cols : list string :=
  ["department"; "gender"; "performance_score"; "salary";
   "average_work_hours"; "age"; "marital_status"; "satisfaction_level";
   "absences"; "id_employee"; "name_employee"; "position";
   "employment_status"; "performance_score_desc"].

(** Strictly ascending order of option values. *)
Definition cell_ltb (a b : cell) : bool :=
  cell_leb a b && negb (cell_eqb a b).

(** [w] selects no more than [w']: fewer genders, a narrower range, fewer
    marital statuses. *)
Definition narrower (w w' : widgets) : Prop :=
  (forall c, cell_in c (gender_sel w) = true -> cell_in c (gender_sel w') = true) /\
  (fst (score_range w') <= fst (score_range w))%Z /\
  (snd (score_range w) <= snd (score_range w'))%Z /\
  (forall c, cell_in c (marital_sel w) = true -> cell_in c (marital_sel w') = true).

(** The events below the head count of a rendering: the means, the four
    charts, the table, the export and the conclusions. *)
Definition body_event (e : event) : Prop :=
  match e with
  | StError _ | SidebarCount _ _ | StWarning | MetricCount _ => False
  | _ => True
  end.

(** A pass that does not end by [st.stop()]. *)
Definition never_stops {A} (m : script A) : Prop := snd m <> Stopped.

(** A CSV with its header line and no employee. *)
Definition header_only : DataFrame := mkDF header [].

(** Widget values with no gender selected. *)
Definition nobody : widgets :=
  mkWidgets [] (1, 4)%Z [CStr (txt "Married"); CStr (txt "Single")].

(** A table that passes the validation but has no absences column. *)
Definition no_absences : DataFrame :=
  mkDF (List.filter (fun c => negb (String.eqb c "absences")) header)
       (map (delete "absences") (rows employees)).

(* ================================================================== *)
(** * Properties *)

(** ** The [result] monad and DataFrame accessors *)

Lemma bind_Ok {A B} (m : result A) (f : A -> result B) (b : B) :
  (m ≫= f) = Ok b -> exists a, m = Ok a /\ f a = Ok b.
Proof. destruct m as [a|e]; simpl; [eauto | discriminate]. Qed.

Lemma getcol_Ok df c :
  c ∈ columns df -> getcol df c = Ok (map (at_col c) (rows df)).
Proof. intros H. unfold getcol. destruct (decide _); [reflexivity | contradiction]. Qed.

Lemma getcol_Raise df c :
  c ∉ columns df -> getcol df c = Raise (KeyError c).
Proof. intros H. unfold getcol. destruct (decide _); [contradiction | reflexivity]. Qed.

Lemma getcol_inv df c s :
  getcol df c = Ok s -> c ∈ columns df /\ s = map (at_col c) (rows df).
Proof.
  unfold getcol. destruct (decide _); [|discriminate].
  intros [= <-]. auto.
Qed.

Lemma zip_with_map_same {A B C} (f : A -> B -> C) (g : A -> B) (l : list A) :
  zip_with f l (map g l) = map (fun x => f x (g x)) l.
Proof. induction l as [|x l IH]; simpl; [reflexivity | now rewrite IH]. Qed.

Lemma setcol_map df c (h : cell -> cell) :
  c ∈ columns df ->
  setcol df c (map h (map (at_col c) (rows df))) =
  mkDF (columns df) (map (fun r => <[c := h (at_col c r)]> r) (rows df)).
Proof.
  intros H. unfold setcol. destruct (decide _); [|contradiction].
  f_equal. rewrite map_map. apply zip_with_map_same.
Qed.

Lemma at_col_insert c v (r : gmap string cell) :
  at_col c (<[c := v]> r) = v.
Proof. unfold at_col. now rewrite lookup_insert_eq. Qed.

Lemma at_col_insert_ne c c' v (r : gmap string cell) :
  c' <> c -> at_col c (<[c' := v]> r) = at_col c r.
Proof. intros H. unfold at_col. now rewrite lookup_insert_ne. Qed.

(** ** [strip] leaves no whitespace at either end *)

Lemma lstrip_first s a :
  first_char (lstrip s) = Some a -> is_space a = false.
Proof.
  induction s as [|b s IH]; simpl; [discriminate|].
  destruct (is_space b) eqn:Hb; [assumption|].
  simpl. intros [= <-]. assumption.
Qed.

Lemma rstrip_last s a :
  last_char (rstrip s) = Some a -> is_space a = false.
Proof.
  induction s as [|b s IH]; simpl; [discriminate|].
  destruct (rstrip s) as [|c t] eqn:Hr.
  - destruct (is_space b) eqn:Hb; simpl; [discriminate|].
    intros [= <-]. assumption.
  - intros H. apply IH. exact H.
Qed.

Lemma rstrip_first s a :
  first_char (rstrip s) = Some a -> first_char s = Some a.
Proof.
  destruct s as [|b s]; simpl; [discriminate|].
  destruct (rstrip s) as [|c t]; [|trivial].
  destruct (is_space b); simpl; [discriminate | trivial].
Qed.

Lemma strip_trimmed s : trimmed (strip s).
Proof.
  split; intros a H; unfold strip in H.
  - apply rstrip_first in H. now apply lstrip_first in H.
  - now apply rstrip_last in H.
Qed.

(** ** Equality and order of strings *)

Lemma text_eqb_eq s t : text_eqb s t = true <-> s = t.
Proof.
  revert t. induction s as [|a s IH]; intros [|b t]; simpl;
    try (split; [discriminate | intros [=]]); [tauto|].
  rewrite andb_true_iff, N.eqb_eq, IH. split; [intros [-> ->] | intros [= -> ->]]; auto.
Qed.

Lemma text_eqb_refl s : text_eqb s s = true.
Proof. now apply text_eqb_eq. Qed.

Lemma text_eqb_sym s t : text_eqb s t = text_eqb t s.
Proof.
  destruct (text_eqb s t) eqn:E1, (text_eqb t s) eqn:E2; try reflexivity.
  - apply text_eqb_eq in E1 as ->. now rewrite text_eqb_refl in E2.
  - apply text_eqb_eq in E2 as ->. now rewrite text_eqb_refl in E1.
Qed.

Lemma text_leb_total s t : text_leb s t = true \/ text_leb t s = true.
Proof.
  revert t. induction s as [|a s IH]; intros [|b t]; simpl; auto.
  rewrite (N.compare_antisym a b).
  destruct (N.compare a b); simpl; auto.
Qed.

Lemma text_leb_trans s1 s2 s3 :
  text_leb s1 s2 = true -> text_leb s2 s3 = true -> text_leb s1 s3 = true.
Proof.
  revert s2 s3. induction s1 as [|a s1 IH]; intros [|b s2] [|c s3]; simpl;
    try reflexivity; try discriminate.
  destruct (N.compare_spec a b) as [->|Hab|Hab]; try discriminate.
  - destruct (N.compare b c); try discriminate; [apply IH | reflexivity].
  - intros _. destruct (N.compare_spec b c) as [->|Hbc|Hbc]; try discriminate; intros _.
    + now apply N.compare_lt_iff in Hab as ->.
    + assert (a < c)%N as Hac by lia. now apply N.compare_lt_iff in Hac as ->.
Qed.

(** ** Equality of cell values *)

Lemma cell_eqb_refl a : cell_eqb a a = true.
Proof.
  destruct a; simpl; [apply text_eqb_refl | apply Qeq_bool_refl | reflexivity].
Qed.

Lemma cell_eqb_sym a b : cell_eqb a b = cell_eqb b a.
Proof.
  destruct a, b; simpl; try reflexivity.
  - apply text_eqb_sym.
  - destruct (Qeq_bool x x0) eqn:E1, (Qeq_bool x0 x) eqn:E2; try reflexivity.
    + apply Qeq_bool_sym in E1. congruence.
    + apply Qeq_bool_sym in E2. congruence.
Qed.

Lemma cell_eqb_trans a b c :
  cell_eqb a b = true -> cell_eqb b c = true -> cell_eqb a c = true.
Proof.
  destruct a, b, c; simpl; try discriminate; try reflexivity.
  - rewrite !text_eqb_eq. congruence.
  - apply Qeq_bool_trans.
Qed.

Lemma cell_eqb_str s c : cell_eqb (CStr s) c = true <-> c = CStr s.
Proof.
  destruct c; simpl; split; try discriminate.
  - rewrite text_eqb_eq. congruence.
  - intros [= ->]. apply text_eqb_refl.
Qed.

Lemma cell_eqb_congr a b c :
  cell_eqb a b = true -> cell_eqb a c = cell_eqb b c.
Proof.
  intros H. destruct (cell_eqb b c) eqn:E.
  - eapply cell_eqb_trans; eassumption.
  - destruct (cell_eqb a c) eqn:E'; [|reflexivity].
    rewrite cell_eqb_sym in H. rewrite <- E. symmetry.
    eapply cell_eqb_trans; eassumption.
Qed.

Lemma cell_in_spec c values :
  cell_in c values = true <-> exists v, In v values /\ cell_eqb c v = true.
Proof. unfold cell_in. apply existsb_exists. Qed.

Lemma lookup_map {A B} (f : A -> B) (l : list A) (i : nat) :
  map f l !! i = f <$> (l !! i).
Proof. revert i. induction l as [|x l IH]; intros [|i]; simpl; auto. Qed.

(** ** The loader, row by row *)

Section LoaderFacts.

Variable parse_float : text -> option Q.
Variable repr_float : Q -> text.
Variable nan_as_text : bool.

Abbreviation load := (load_data parse_float repr_float nan_as_text).
Abbreviation loaded_row := (load_row parse_float repr_float nan_as_text).

Lemma clean_step df c :
  c ∈ columns df ->
  setcol df c (str_strip (astype_str repr_float nan_as_text (map (at_col c) (rows df)))) =
  mkDF (columns df) (map (clean repr_float nan_as_text c) (rows df)).
Proof.
  intros H. unfold str_strip, astype_str. rewrite map_map.
  now rewrite (setcol_map df c (fun x => str_strip1 (astype_str1 repr_float nan_as_text x))).
Qed.

Lemma coerce_cols_rows cols : forall df df',
  coerce_cols parse_float cols df = Ok df' ->
  (forall c, In c cols -> c ∈ columns df) /\
  columns df' = columns df /\
  rows df' = map (fun r => foldl (fun r c => coerce parse_float c r) r cols) (rows df).
Proof.
  induction cols as [|c cols IH]; intros df df' H; simpl in H.
  - injection H as <-. split; [intros c []|]. split; [reflexivity|].
    simpl. now rewrite map_id.
  - apply bind_Ok in H as (s & Hs & H). apply getcol_inv in Hs as [Hc ->].
    unfold to_numeric in H. rewrite (setcol_map df c (to_numeric1 parse_float)) in H by assumption.
    apply IH in H as (Hin & Hcols & Hrows). simpl in *.
    split; [|split].
    + intros c' [<-|Hc']; [assumption | now apply Hin].
    + assumption.
    + rewrite Hrows, map_map. reflexivity.
Qed.

Lemma coerce_cols_total cols : forall df,
  (forall c, In c cols -> c ∈ columns df) ->
  exists df', coerce_cols parse_float cols df = Ok df'.
Proof.
  induction cols as [|c cols IH]; intros df H; simpl.
  - eauto.
  - rewrite getcol_Ok by (apply H; now left). simpl.
    unfold to_numeric. rewrite (setcol_map df c (to_numeric1 parse_float)) by (apply H; now left).
    apply IH. simpl. intros c' Hc'. apply H. now right.
Qed.

Lemma coerce_cols_Raise cols : forall df e,
  coerce_cols parse_float cols df = Raise e ->
  exists c, e = KeyError c /\ In c cols /\ c ∉ columns df.
Proof.
  induction cols as [|c cols IH]; intros df e H; simpl in H; [discriminate|].
  destruct (decide (c ∈ columns df)) as [Hc|Hc].
  - rewrite getcol_Ok in H by assumption. simpl in H.
    unfold to_numeric in H. rewrite (setcol_map df c (to_numeric1 parse_float)) in H by assumption.
    apply IH in H as (c' & -> & Hin & Hn). exists c'. simpl in Hn. auto using in_cons.
  - rewrite getcol_Raise in H by assumption. simpl in H. injection H as <-.
    exists c. split; [reflexivity|]. split; [now left | assumption].
Qed.

(** [load_data] keeps the header and rewrites every row with
    [load_row]. *)
Lemma load_data_rows csv df :
  load csv = Ok df ->
  (forall c, In c loader_cols -> c ∈ columns csv) /\
  columns df = columns csv /\
  rows df = map loaded_row (rows csv).
Proof.
  unfold load_data. intros H.
  apply bind_Ok in H as (dep & Hdep & H). apply getcol_inv in Hdep as [Hd ->].
  rewrite clean_step in H by assumption.
  apply bind_Ok in H as (gen & Hgen & H). apply getcol_inv in Hgen as [Hg ->].
  simpl in Hg. rewrite clean_step in H by assumption.
  apply coerce_cols_rows in H as (Hin & Hcols & Hrows). simpl in *.
  split; [|split].
  - intros c [<-|[<-|Hc]]; [assumption | assumption | now apply Hin].
  - assumption.
  - rewrite Hrows, !map_map. reflexivity.
Qed.

Lemma load_data_total csv :
  (forall c, In c loader_cols -> c ∈ columns csv) ->
  exists df, load csv = Ok df.
Proof.
  intros H. unfold load_data.
  rewrite getcol_Ok by (apply H; simpl; auto). cbn [mbind result_bind].
  rewrite clean_step by (apply H; simpl; auto).
  rewrite getcol_Ok by (simpl; apply H; simpl; auto). cbn [mbind result_bind].
  rewrite clean_step by (simpl; apply H; simpl; auto).
  apply coerce_cols_total. simpl. intros c Hc. apply H. simpl. tauto.
Qed.

Lemma load_data_Raise csv e :
  load csv = Raise e ->
  exists c, e = KeyError c /\ In c loader_cols /\ c ∉ columns csv.
Proof.
  unfold load_data. intros H.
  destruct (decide ("department" ∈ columns csv)) as [Hd|Hd].
  2:{ rewrite getcol_Raise in H by assumption. simpl in H. injection H as <-.
      exists "department". simpl. auto. }
  rewrite getcol_Ok in H by assumption. cbn [mbind result_bind] in H.
  rewrite clean_step in H by assumption.
  destruct (decide ("gender" ∈ columns csv)) as [Hg|Hg].
  2:{ rewrite getcol_Raise in H by assumption. simpl in H. injection H as <-.
      exists "gender". simpl. auto. }
  rewrite getcol_Ok in H by assumption. cbn [mbind result_bind] in H.
  rewrite clean_step in H by assumption.
  apply coerce_cols_Raise in H as (c & -> & Hin & Hn). simpl in *.
  exists c. split; [reflexivity|]. split; [tauto | assumption].
Qed.

(** The cells of a loaded row, column by column. *)
Lemma load_row_gender r :
  at_col "gender" (loaded_row r) =
  str_strip1 (astype_str1 repr_float nan_as_text (at_col "gender" r)).
Proof.
  unfold load_row, coerce, clean.
  rewrite !at_col_insert_ne by discriminate.
  rewrite at_col_insert. now rewrite at_col_insert_ne by discriminate.
Qed.

Lemma load_row_department r :
  at_col "department" (loaded_row r) =
  str_strip1 (astype_str1 repr_float nan_as_text (at_col "department" r)).
Proof.
  unfold load_row, coerce, clean.
  rewrite !at_col_insert_ne by discriminate.
  now rewrite at_col_insert.
Qed.

Lemma load_row_numeric r c :
  In c numeric_cols ->
  at_col c (loaded_row r) = to_numeric1 parse_float (at_col c r).
Proof.
  unfold load_row, coerce, clean.
  intros [<-|[<-|[<-|[<-|[]]]]];
    repeat first [ progress rewrite at_col_insert
                 | progress rewrite at_col_insert_ne by discriminate ];
    reflexivity.
Qed.

Lemma load_row_other r c :
  ~ In c loader_cols -> at_col c (loaded_row r) = at_col c r.
Proof.
  intros H. unfold load_row, coerce, clean.
  rewrite !at_col_insert_ne; [reflexivity|..];
    intros <-; apply H; simpl; tauto.
Qed.

Lemma clean_cell_trimmed c :
  (exists s, str_strip1 (astype_str1 repr_float nan_as_text c) = CStr s /\ trimmed s) \/
  (nan_as_text = false /\ c = CNaN /\
   str_strip1 (astype_str1 repr_float nan_as_text c) = CNaN).
Proof.
  destruct c as [s|x|]; simpl.
  - left. eexists. split; [reflexivity | apply strip_trimmed].
  - left. eexists. split; [reflexivity | apply strip_trimmed].
  - destruct nan_as_text; simpl.
    + left. eexists. split; [reflexivity | apply strip_trimmed].
    + right. auto.
Qed.

Lemma to_numeric1_numeric c :
  is_num (to_numeric1 parse_float c) || isna (to_numeric1 parse_float c) = true.
Proof.
  destruct c as [s|x|]; simpl; [|reflexivity..].
  destruct (parse_float s); reflexivity.
Qed.

(** C5: on every table that has the six columns the loader reads
    (department, gender, performance_score, salary, average_work_hours,
    age), the loader returns, whatever the cells hold; in the loaded table
    each cell of performance_score, salary, average_work_hours and age is a
    number or NaN: a number stays, a string that parses becomes its number,
    and a string that does not parse becomes NaN. *)
Theorem load_data_coerces_numeric csv :
  "department" ∈ columns csv -> "gender" ∈ columns csv ->
  "performance_score" ∈ columns csv -> "salary" ∈ columns csv ->
  "average_work_hours" ∈ columns csv -> "age" ∈ columns csv ->
  exists df,
    load_data parse_float repr_float nan_as_text csv = Ok df /\
    length (rows df) = length (rows csv) /\
    forall i r c,
      rows csv !! i = Some r ->
      c = "performance_score" \/ c = "salary" \/
      c = "average_work_hours" \/ c = "age" ->
      exists r',
        rows df !! i = Some r' /\
        (is_num (at_col c r') || isna (at_col c r') = true) /\
        (forall x, at_col c r = CNum x -> at_col c r' = CNum x) /\
        (forall s x, at_col c r = CStr s -> parse_float s = Some x ->
                     at_col c r' = CNum x) /\
        (forall s, at_col c r = CStr s -> parse_float s = None ->
                   at_col c r' = CNaN) /\
        (at_col c r = CNaN -> at_col c r' = CNaN).
Proof.
  intros Hd Hg Hps Hs Hh Ha.
  assert (forall c, In c loader_cols -> c ∈ columns csv) as Hcols.
  { intros c [<-|[<-|[<-|[<-|[<-|[<-|[]]]]]]]; assumption. }
  destruct (load_data_total csv Hcols) as [df Hdf].
  exists df. split; [assumption|].
  apply load_data_rows in Hdf as (_ & _ & Hrows).
  split; [now rewrite Hrows, length_map|].
  intros i r c Hi Hc. exists (loaded_row r).
  split; [now rewrite Hrows, lookup_map, Hi|].
  assert (In c numeric_cols) as Hin.
  { destruct Hc as [->|[->|[->| ->]]]; simpl; auto. }
  rewrite (load_row_numeric r c Hin).
  split; [apply to_numeric1_numeric|].
  repeat split.
  - now intros x ->.
  - intros s x -> Hp. simpl. now rewrite Hp.
  - intros s -> Hp. simpl. now rewrite Hp.
  - now intros ->.
Qed.

(** C6: in a loaded table every gender and every department value is a
    string with no whitespace at either end, where whitespace is all of
    [str.isspace]; the only cell that is not such a string is a missing
    one, which pandas 3 leaves missing (before pandas 3 there is none: the
    cast has made it the string "nan").  A row read with gender "M "
    carries "M" after load and is selected by the membership test against
    the selection ["M"]. *)
Theorem load_data_trims csv df :
  load_data parse_float repr_float nan_as_text csv = Ok df ->
  (forall r c, In r (rows df) -> c = "gender" \/ c = "department" ->
     (exists s, at_col c r = CStr s /\ trimmed s) \/
     (nan_as_text = false /\ at_col c r = CNaN)) /\
  (forall i r, rows csv !! i = Some r -> at_col "gender" r = CStr (txt "M ") ->
     exists r', rows df !! i = Some r' /\
                at_col "gender" r' = CStr (txt "M") /\
                cell_in (at_col "gender" r') [CStr (txt "M")] = true).
Proof.
  intros Hdf. apply load_data_rows in Hdf as (_ & _ & Hrows). split.
  - intros r c Hr Hc. rewrite Hrows in Hr. apply in_map_iff in Hr as (r0 & <- & _).
    destruct Hc as [-> | ->].
    + rewrite load_row_gender.
      destruct (clean_cell_trimmed (at_col "gender" r0)) as [H|(Hv & _ & H)]; auto.
    + rewrite load_row_department.
      destruct (clean_cell_trimmed (at_col "department" r0)) as [H|(Hv & _ & H)]; auto.
  - intros i r Hi Hg. exists (loaded_row r).
    split; [now rewrite Hrows, lookup_map, Hi|].
    rewrite load_row_gender, Hg. split; reflexivity.
Qed.

End LoaderFacts.

(** ** Masks and the filter *)

Lemma zip_with_map {A B C D} (f : B -> C -> D) (g : A -> B) (h : A -> C) l :
  zip_with f (map g l) (map h l) = map (fun x => f (g x) (h x)) l.
Proof. induction l as [|x l IH]; simpl; [reflexivity | now rewrite IH]. Qed.

Lemma select_map {A} (f : A -> bool) (l : list A) :
  select l (map f l) = List.filter f l.
Proof.
  induction l as [|x l IH]; simpl; [reflexivity|].
  destruct (f x); now rewrite IH.
Qed.

Lemma filter_mask_rows df w :
  "gender" ∈ columns df -> "performance_score" ∈ columns df ->
  "marital_status" ∈ columns df ->
  numeric_column df "performance_score" ->
  filter_mask df w = Ok (map (keeps w) (rows df)).
Proof.
  intros Hg Hp Hm Hn. unfold filter_mask.
  rewrite !getcol_Ok by assumption. cbn [mbind result_bind].
  unfold between. rewrite Hn. cbn [mbind result_bind].
  unfold isin, mask_and. rewrite !map_map.
  now rewrite !zip_with_map.
Qed.

Lemma df_f_rows df w :
  "gender" ∈ columns df -> "performance_score" ∈ columns df ->
  "marital_status" ∈ columns df ->
  numeric_column df "performance_score" ->
  df_f df w = Ok (mkDF (columns df) (List.filter (keeps w) (rows df))).
Proof.
  intros Hg Hp Hm Hn. unfold df_f. rewrite filter_mask_rows by assumption.
  cbn [mbind result_bind]. unfold getmask. now rewrite select_map.
Qed.

Lemma df_f_inv df w view :
  df_f df w = Ok view ->
  "gender" ∈ columns df /\ "performance_score" ∈ columns df /\
  "marital_status" ∈ columns df /\ numeric_column df "performance_score".
Proof.
  unfold df_f, filter_mask. intros H.
  apply bind_Ok in H as (mask & H & _).
  apply bind_Ok in H as (g & Hg & H). apply getcol_inv in Hg as [Hg _].
  apply bind_Ok in H as (p & Hp & H). apply getcol_inv in Hp as [Hp ->].
  apply bind_Ok in H as (s & Hs & H).
  apply bind_Ok in H as (m & Hm & H). apply getcol_inv in Hm as [Hm _].
  unfold between in Hs. unfold numeric_column.
  destruct (existsb is_str _); [discriminate | auto].
Qed.

Lemma same_value_eqb c v : same_value c v -> cell_eqb c v = true.
Proof.
  destruct c, v; simpl; try contradiction.
  - intros ->. apply text_eqb_refl.
  - apply Qeq_bool_iff.
Qed.

Lemma eqb_same_value c v :
  cell_eqb c v = true -> v <> CNaN -> same_value c v.
Proof.
  destruct c, v; simpl; try discriminate; try congruence.
  - rewrite text_eqb_eq. auto.
  - intros H _. now apply Qeq_bool_iff.
Qed.

Lemma cell_in_member c selection :
  ~ In CNaN selection ->
  cell_in c selection = true <-> member c selection.
Proof.
  intros Hna. rewrite cell_in_spec. unfold member.
  split; intros (v & Hv & H); exists v; split; try assumption.
  - apply eqb_same_value; [assumption|]. intros ->. contradiction.
  - now apply same_value_eqb.
Qed.

Lemma member_not_nan selection : ~ member CNaN selection.
Proof. intros (v & _ & H). exact H. Qed.

Lemma between1_in_range lo hi c :
  between1 lo hi c = true <-> in_range lo hi c.
Proof.
  unfold in_range. destruct c as [s|x|]; simpl.
  - split; [discriminate | intros (y & [=] & _)].
  - rewrite andb_true_iff, !Qle_bool_iff. split.
    + intros [H1 H2]. eauto.
    + intros (y & [= <-] & H). exact H.
  - split; [discriminate | intros (y & [=] & _)].
Qed.

Lemma keeps_included w r :
  ~ In CNaN (gender_sel w) -> ~ In CNaN (marital_sel w) ->
  keeps w r = true <-> included w r.
Proof.
  intros Hg Hm. unfold keeps, included.
  rewrite !andb_true_iff, between1_in_range.
  rewrite (cell_in_member _ _ Hg), (cell_in_member _ _ Hm). tauto.
Qed.

(** C1: on a table that has the three filtered columns, the score column
    being numeric as the loader leaves it, and with selections that hold
    values (the options offered never hold NaN), the filtered view has
    the columns of the table and exactly its rows, in order, that pass
    the filter expression; a row is in the view only if its gender is a
    selected one, its score lies in the closed range and its marital
    status is a selected one; a row of the table that fails one of the
    three is absent; and so is every row with NaN under gender,
    performance_score or marital_status. *)
Theorem filter_keeps_exactly df w :
  ~ In CNaN (gender_sel w) -> ~ In CNaN (marital_sel w) ->
  "gender" ∈ columns df -> "performance_score" ∈ columns df ->
  "marital_status" ∈ columns df ->
  numeric_column df "performance_score" ->
  exists view,
    df_f df w = Ok view /\
    columns view = columns df /\
    rows view = List.filter (keeps w) (rows df) /\
    (forall r, In r (rows view) -> In r (rows df) /\ included w r) /\
    (forall r, In r (rows df) -> included w r -> In r (rows view)) /\
    (forall r, In r (rows df) -> ~ included w r -> ~ In r (rows view)) /\
    (forall r, In r (rows df) ->
       isna (at_col "gender" r) = true \/
       isna (at_col "performance_score" r) = true \/
       isna (at_col "marital_status" r) = true ->
       ~ In r (rows view)).
Proof.
  intros Hng Hnm Hg Hp Hm Hnum.
  eexists. split; [now apply df_f_rows|]. simpl.
  split; [reflexivity|]. split; [reflexivity|].
  assert (forall r, In r (List.filter (keeps w) (rows df)) <->
                    In r (rows df) /\ included w r) as Hiff.
  { intros r. rewrite filter_In, keeps_included by assumption. reflexivity. }
  split; [|split; [|split]].
  - intros r Hr. now apply Hiff.
  - intros r Hr Hinc. apply Hiff. auto.
  - intros r Hr Hn Hv. apply Hiff in Hv. tauto.
  - intros r Hr Hna Hv. apply Hiff in Hv as [_ (H1 & H2 & H3)].
    destruct Hna as [Hna|[Hna|Hna]].
    + destruct (at_col "gender" r); try discriminate.
      exact (member_not_nan _ H1).
    + destruct H2 as (x & Hx & _). rewrite Hx in Hna. discriminate.
    + destruct (at_col "marital_status" r); try discriminate.
      exact (member_not_nan _ H3).
Qed.

(** ** Sorting, distinct values and the options of a control *)

Lemma insert_by_In {A} (leb : A -> A -> bool) x y l :
  In x (insert_by leb y l) <-> x = y \/ In x l.
Proof.
  induction l as [|z l IH]; simpl.
  - intuition congruence.
  - destruct (leb y z); simpl; rewrite ?IH; intuition congruence.
Qed.

Lemma sort_by_In {A} (leb : A -> A -> bool) x l :
  In x (sort_by leb l) <-> In x l.
Proof.
  induction l as [|y l IH]; simpl; [reflexivity|].
  rewrite insert_by_In, IH. intuition congruence.
Qed.

Lemma dropna_In x s : In x (dropna s) <-> In x s /\ isna x = false.
Proof. unfold dropna. now rewrite filter_In, negb_true_iff. Qed.

Lemma unique_In x s : In x (unique s) -> In x s.
Proof.
  induction s as [|c s IH]; simpl; [trivial|].
  intros [->|H]; [now left|]. apply filter_In in H as [H _]. auto.
Qed.

Lemma unique_complete x s : In x s -> cell_in x (unique s) = true.
Proof.
  induction s as [|c s IH]; simpl; [contradiction|].
  intros H. destruct (cell_eqb x c) eqn:E; [reflexivity|]. simpl.
  destruct H as [->|H]; [now rewrite cell_eqb_refl in E|].
  apply IH, cell_in_spec in H as (v & Hv & Hxv).
  apply cell_in_spec. exists v. split; [|assumption].
  apply filter_In. split; [assumption|].
  apply negb_true_iff. destruct (cell_eqb c v) eqn:Ecv; [|reflexivity].
  rewrite cell_eqb_sym in Ecv.
  rewrite (cell_eqb_trans _ _ _ Hxv Ecv) in E. discriminate.
Qed.

Lemma unique_complete_in x s :
  cell_in x s = true ->
  exists k, In k (unique s) /\ cell_eqb x k = true.
Proof.
  intros H. apply cell_in_spec in H as (v & Hv & Hxv).
  apply unique_complete, cell_in_spec in Hv as (k & Hk & Hvk).
  exists k. split; [assumption|]. eapply cell_eqb_trans; eassumption.
Qed.

Lemma homogeneous_str l :
  (forall c, In c l -> is_str c = true) -> homogeneous l = true.
Proof.
  intros H. unfold homogeneous. apply orb_true_iff. left.
  now apply forallb_forall.
Qed.

Lemma homogeneous_num l :
  (forall c, In c l -> is_num c = true) -> homogeneous l = true.
Proof.
  intros H. unfold homogeneous. apply orb_true_iff. right.
  now apply forallb_forall.
Qed.

Lemma options_spec s opts :
  options s = Ok opts ->
  (forall v, In v opts -> In v s /\ isna v = false) /\
  (forall c, In c s -> isna c = false -> cell_in c opts = true).
Proof.
  unfold options, py_sorted. destruct (homogeneous _); [|discriminate].
  intros [= <-]. split.
  - intros v Hv. apply sort_by_In, unique_In, dropna_In in Hv. exact Hv.
  - intros c Hc Hna.
    assert (In c (dropna s)) as Hd by (now apply dropna_In).
    apply unique_complete, cell_in_spec in Hd as (v & Hv & Hcv).
    apply cell_in_spec. exists v. split; [|assumption]. now apply sort_by_In.
Qed.

Lemma options_no_nan s opts : options s = Ok opts -> ~ In CNaN opts.
Proof.
  intros H Hin. apply options_spec in H as [H _].
  apply H in Hin as [_ Hna]. discriminate.
Qed.

Lemma options_str s :
  (forall c, In c s -> is_num c = false) -> exists opts, options s = Ok opts.
Proof.
  intros H. unfold options, py_sorted. rewrite homogeneous_str; [eauto|].
  intros c Hc. apply unique_In, dropna_In in Hc as [Hc Hna].
  specialize (H c Hc). now destruct c.
Qed.

(** ** Bounds of the score slider *)

Lemma qmin_le_l x y : (qmin x y <= x)%Q.
Proof.
  unfold qmin. destruct (Qle_bool x y) eqn:E; [apply Qle_refl|].
  apply Qlt_le_weak, Qnot_le_lt. intros H. apply Qle_bool_iff in H. congruence.
Qed.

Lemma qmin_le_r x y : (qmin x y <= y)%Q.
Proof.
  unfold qmin. destruct (Qle_bool x y) eqn:E; [now apply Qle_bool_iff | apply Qle_refl].
Qed.

Lemma qmax_ge_l x y : (x <= qmax x y)%Q.
Proof.
  unfold qmax. destruct (Qle_bool x y) eqn:E; [now apply Qle_bool_iff | apply Qle_refl].
Qed.

Lemma qmax_ge_r x y : (y <= qmax x y)%Q.
Proof.
  unfold qmax. destruct (Qle_bool x y) eqn:E; [apply Qle_refl|].
  apply Qlt_le_weak, Qnot_le_lt. intros H. apply Qle_bool_iff in H. congruence.
Qed.

Lemma foldl_qmin_le xs : forall x y,
  In y (x :: xs) -> (foldl qmin x xs <= y)%Q.
Proof.
  induction xs as [|z xs IH]; intros x y Hy; simpl in *.
  - destruct Hy as [->|[]]. apply Qle_refl.
  - destruct Hy as [->|[->|Hy]].
    + eapply Qle_trans; [apply IH; now left | apply qmin_le_l].
    + eapply Qle_trans; [apply IH; now left | apply qmin_le_r].
    + apply IH. now right.
Qed.

Lemma foldl_qmin_In xs : forall x, In (foldl qmin x xs) (x :: xs).
Proof.
  induction xs as [|z xs IH]; intros x; simpl; [now left|].
  destruct (IH (qmin x z)) as [H|H]; [|now right; right].
  rewrite <- H. unfold qmin. destruct (Qle_bool x z); auto.
Qed.

Lemma foldl_qmax_ge xs : forall x y,
  In y (x :: xs) -> (y <= foldl qmax x xs)%Q.
Proof.
  induction xs as [|z xs IH]; intros x y Hy; simpl in *.
  - destruct Hy as [->|[]]. apply Qle_refl.
  - destruct Hy as [->|[->|Hy]].
    + eapply Qle_trans; [apply qmax_ge_l | apply IH; now left].
    + eapply Qle_trans; [apply qmax_ge_r | apply IH; now left].
    + apply IH. now right.
Qed.

Lemma foldl_qmax_In xs : forall x, In (foldl qmax x xs) (x :: xs).
Proof.
  induction xs as [|z xs IH]; intros x; simpl; [now left|].
  destruct (IH (qmax x z)) as [H|H]; [|now right; right].
  rewrite <- H. unfold qmax. destruct (Qle_bool x z); auto.
Qed.

Lemma nums_In x s : In x (nums s) <-> In (CNum x) s.
Proof.
  induction s as [|c s IH]; simpl; [reflexivity|].
  destruct c; simpl; rewrite IH; intuition congruence.
Qed.

(** With a number in the column and no string, both bounds exist; they
    are the truncations of two scores of the column that bracket every
    score. *)
Lemma int_bounds s x :
  existsb is_str s = false -> In (CNum x) s ->
  exists mn mx,
    int_nanmin s = Ok (trunc mn) /\ int_nanmax s = Ok (trunc mx) /\
    In (CNum mn) s /\ In (CNum mx) s /\
    forall y, In (CNum y) s -> (mn <= y)%Q /\ (y <= mx)%Q.
Proof.
  intros Hs Hx. unfold int_nanmin, int_nanmax. rewrite Hs.
  apply nums_In in Hx.
  destruct (nums s) as [|z zs] eqn:E; [destruct Hx|].
  exists (foldl qmin z zs), (foldl qmax z zs).
  split; [reflexivity|]. split; [reflexivity|].
  split; [apply nums_In; rewrite E; apply foldl_qmin_In|].
  split; [apply nums_In; rewrite E; apply foldl_qmax_In|].
  intros y Hy. apply nums_In in Hy. rewrite E in Hy.
  split; [now apply foldl_qmin_le | now apply foldl_qmax_ge].
Qed.

(** ** The insertion sort sorts *)

Section SortFacts.

Context {A : Type} (leb : A -> A -> bool) (P : A -> Prop).
Hypothesis leb_total : forall x y, P x -> P y -> leb x y = true \/ leb y x = true.
Hypothesis leb_trans : forall x y z, P x -> P y -> P z ->
  leb x y = true -> leb y z = true -> leb x z = true.

Lemma insert_by_sorted x l :
  P x -> Forall P l ->
  StronglySorted (fun a b => leb a b = true) l ->
  StronglySorted (fun a b => leb a b = true) (insert_by leb x l).
Proof.
  intros Px Pl Hs. induction Hs as [|y l Hs IH Hy]; simpl.
  - repeat constructor.
  - apply List.Forall_cons_iff in Pl as [Py Pl].
    destruct (leb x y) eqn:E.
    + constructor; [now constructor|].
      constructor; [assumption|].
      rewrite List.Forall_forall in *. intros z Hz.
      apply (leb_trans x y z); auto.
    + constructor; [now apply IH|].
      apply List.Forall_forall. intros z Hz. apply insert_by_In in Hz as [->|Hz].
      * destruct (leb_total x y Px Py); congruence.
      * rewrite List.Forall_forall in Hy. auto.
Qed.

Lemma insert_by_Forall x l : P x -> Forall P l -> Forall P (insert_by leb x l).
Proof.
  intros Px Pl. apply List.Forall_forall. intros z Hz.
  apply insert_by_In in Hz as [->|Hz]; [assumption|].
  rewrite List.Forall_forall in Pl. auto.
Qed.

Lemma sort_by_Forall l : Forall P l -> Forall P (sort_by leb l).
Proof.
  intros H. apply List.Forall_forall. intros z Hz. apply sort_by_In in Hz.
  rewrite List.Forall_forall in H. auto.
Qed.

Lemma sort_by_sorted l :
  Forall P l -> StronglySorted (fun a b => leb a b = true) (sort_by leb l).
Proof.
  induction l as [|x l IH]; intros H; simpl; [constructor|].
  apply List.Forall_cons_iff in H as [Px Pl].
  apply insert_by_sorted; auto using sort_by_Forall.
Qed.

End SortFacts.

Lemma StronglySorted_weaken {A} (R S : A -> A -> Prop) l :
  (forall x y, R x y -> S x y) -> StronglySorted R l -> StronglySorted S l.
Proof.
  intros H Hs. induction Hs as [|x l Hs IH Hx]; constructor; [assumption|].
  eapply List.Forall_impl; [|exact Hx]. auto.
Qed.


Lemma insert_by_count {A} (leb : A -> A -> bool) (f : A -> bool) x l :
  length (List.filter f (insert_by leb x l)) = length (List.filter f (x :: l)).
Proof.
  induction l as [|y l IH]; simpl; [reflexivity|].
  destruct (leb x y); simpl; [reflexivity|].
  simpl in IH. destruct (f y), (f x); simpl in *; lia.
Qed.

Lemma sort_by_count {A} (leb : A -> A -> bool) (f : A -> bool) l :
  length (List.filter f (sort_by leb l)) = length (List.filter f l).
Proof.
  induction l as [|x l IH]; simpl; [reflexivity|].
  rewrite insert_by_count. simpl. destruct (f x); simpl; now rewrite IH.
Qed.

Lemma sort_by_map_fst {A B} (leb : A -> A -> bool) (l : list (A * B)) :
  map fst (sort_by (fun p q => leb (fst p) (fst q)) l) = sort_by leb (map fst l).
Proof.
  induction l as [|x l IH]; simpl; [reflexivity|]. rewrite <- IH.
  generalize (sort_by (fun p q => leb (fst p) (fst q)) l). intros k.
  induction k as [|y k IHk]; simpl; [reflexivity|].
  destruct (leb (fst x) (fst y)); simpl; [reflexivity | now rewrite IHk].
Qed.

(** *** The order of cells *)

Lemma homogeneous_same_kind l :
  homogeneous l = true -> Forall (same_kind l) l.
Proof.
  unfold homogeneous, same_kind. intros H. apply List.Forall_forall. intros c Hc.
  destruct (forallb is_str l) eqn:E.
  - rewrite forallb_forall in E. auto.
  - simpl in H. rewrite forallb_forall in H. auto.
Qed.

Lemma cell_leb_total l x y :
  same_kind l x -> same_kind l y ->
  cell_leb x y = true \/ cell_leb y x = true.
Proof.
  unfold same_kind. destruct (forallb is_str l);
    destruct x, y; simpl; try discriminate; intros _ _.
  - apply text_leb_total.
  - rewrite !Qle_bool_iff. destruct (Qlt_le_dec x x0) as [H|H]; [left | right; exact H].
    now apply Qlt_le_weak.
Qed.

Lemma cell_leb_trans x y z :
  cell_leb x y = true -> cell_leb y z = true -> cell_leb x z = true.
Proof.
  destruct x, y, z; simpl; try discriminate.
  - apply text_leb_trans.
  - rewrite !Qle_bool_iff. apply Qle_trans.
Qed.

Lemma py_sorted_sorted l l' :
  py_sorted l = Ok l' ->
  StronglySorted (fun a b => cell_leb a b = true) l'.
Proof.
  unfold py_sorted. destruct (homogeneous l) eqn:E; [|discriminate].
  intros [= <-].
  apply (sort_by_sorted cell_leb (same_kind l)).
  - apply cell_leb_total.
  - intros x y z _ _ _. apply cell_leb_trans.
  - now apply homogeneous_same_kind.
Qed.


(** ** Counting, grouping and means *)

Lemma count_eq_filter_ne k c l :
  count_eq k (List.filter (fun d => negb (cell_eqb c d)) l) =
  if cell_eqb k c then 0%nat else count_eq k l.
Proof.
  unfold count_eq. induction l as [|d l IH]; simpl.
  - now destruct (cell_eqb k c).
  - destruct (cell_eqb c d) eqn:Ecd; simpl.
    + rewrite IH. destruct (cell_eqb k c) eqn:Ekc; [reflexivity|].
      destruct (cell_eqb k d) eqn:Ekd; [|reflexivity].
      rewrite cell_eqb_sym in Ecd.
      rewrite (cell_eqb_trans _ _ _ Ekd Ecd) in Ekc. discriminate.
    + destruct (cell_eqb k d) eqn:Ekd; simpl; rewrite IH.
      * destruct (cell_eqb k c) eqn:Ekc; [|reflexivity].
        rewrite cell_eqb_sym in Ekc.
        rewrite (cell_eqb_trans _ _ _ Ekc Ekd) in Ecd. discriminate.
      * reflexivity.
Qed.

(** Among the distinct values each value of the column occurs once. *)
Lemma count_eq_unique k s :
  count_eq k (unique s) = if cell_in k s then 1%nat else 0%nat.
Proof.
  induction s as [|c s IH]; simpl; [reflexivity|].
  unfold count_eq in *. simpl.
  destruct (cell_eqb k c) eqn:E; simpl.
  - pose proof (count_eq_filter_ne k c (unique s)) as H.
    unfold count_eq in H. now rewrite H, E.
  - pose proof (count_eq_filter_ne k c (unique s)) as H.
    unfold count_eq in H. now rewrite H, E, IH.
Qed.






(** *** The rows of a group *)

Lemma cell_eqb_same_value k x :
  k <> CNaN -> cell_eqb k x = true <-> same_value x k.
Proof.
  intros Hk. rewrite cell_eqb_sym. split.
  - intros H. now apply eqb_same_value.
  - apply same_value_eqb.
Qed.


Lemma rows_with_filter c k rws :
  k <> CNaN ->
  rows_with c k rws (List.filter (fun r => cell_eqb k (at_col c r)) rws).
Proof.
  intros Hk. induction rws as [|r rws IH]; simpl; [constructor|].
  destruct (cell_eqb k (at_col c r)) eqn:E.
  - constructor; [now apply cell_eqb_same_value | assumption].
  - constructor; [|assumption].
    intros H. apply (cell_eqb_same_value k _ Hk) in H. congruence.
Qed.



Lemma dropna_map_present c rws :
  dropna (map (at_col c) rws) = map (at_col c) (present c rws).
Proof.
  unfold dropna, present. induction rws as [|r rws IH]; simpl; [reflexivity|].
  destruct (at_col c r) eqn:E; simpl; rewrite ?E, IH; reflexivity.
Qed.

Lemma count_eq_rows c k rws :
  k <> CNaN ->
  count_eq k (dropna (map (at_col c) rws)) =
  length (List.filter (fun r => cell_eqb k (at_col c r)) rws).
Proof.
  intros Hk. unfold count_eq, dropna.
  induction rws as [|r rws IH]; simpl; [reflexivity|].
  destruct (at_col c r) as [s|x|] eqn:E; simpl.
  - destruct (cell_eqb k (CStr s)); simpl; now rewrite IH.
  - destruct (cell_eqb k (CNum x)); simpl; now rewrite IH.
  - destruct k; simpl; try assumption; contradiction.
Qed.


Lemma existsb_false_incl {A} (f : A -> bool) l l' :
  (forall x, In x l' -> In x l) -> existsb f l = false -> existsb f l' = false.
Proof.
  intros Hin H. destruct (existsb f l') eqn:E; [|reflexivity].
  apply existsb_exists in E as (x & Hx & Hf).
  assert (existsb f l = true) by (apply existsb_exists; eauto). congruence.
Qed.


Lemma traverse_spec {A B} (f : A -> result B) l res :
  traverse f l = Ok res -> Forall2 (fun x y => f x = Ok y) l res.
Proof.
  revert res. induction l as [|x l IH]; simpl; intros res H.
  - injection H as <-. constructor.
  - apply bind_Ok in H as (y & Hy & H). apply bind_Ok in H as (ys & Hys & H).
    injection H as <-. constructor; auto.
Qed.


Lemma groupby_mean_spec keys vals res :
  groupby_mean keys vals = Ok res ->
  py_sorted (unique (dropna keys)) = Ok (map fst res) /\
  forall k m, In (k, m) res -> mean (group k keys vals) = Ok m.
Proof.
  unfold groupby_mean. intros H. apply bind_Ok in H as (ks & Hks & H).
  apply traverse_spec in H. rewrite Hks. clear Hks.
  induction H as [|k [k' m] ks res Hk H IH]; simpl.
  - split; [reflexivity | contradiction].
  - apply bind_Ok in Hk as (m' & Hm & [= <- <-]).
    destruct IH as [IH1 IH2]. injection IH1 as IH1. split; [now rewrite <- IH1|].
    intros k0 m0 [[= <- <-]|Hin]; auto.
Qed.


Lemma cell_in_eqb_count k l :
  cell_in k l = true <-> (0 < count_eq k l)%nat.
Proof.
  unfold cell_in, count_eq. induction l as [|c l IH]; simpl.
  - split; [discriminate | lia].
  - destruct (cell_eqb k c); simpl; [split; [lia | reflexivity] | exact IH].
Qed.


(** ** Value counts *)

Lemma total_insert_by leb (x : cell * nat) l :
  total (insert_by leb x l) = (snd x + total l)%nat.
Proof.
  induction l as [|y l IH]; simpl; [reflexivity|].
  destruct (leb x y); simpl; [reflexivity|]. rewrite IH. lia.
Qed.

Lemma total_sort_by leb (l : list (cell * nat)) :
  total (sort_by leb l) = total l.
Proof.
  induction l as [|x l IH]; simpl; [reflexivity|].
  now rewrite total_insert_by, IH.
Qed.

Lemma count_eq_cons k x p :
  count_eq k (x :: p) = ((if cell_eqb k x then 1 else 0) + count_eq k p)%nat.
Proof. unfold count_eq. simpl. now destruct (cell_eqb k x). Qed.

Lemma total_cons (p : cell * nat) l : total (p :: l) = (snd p + total l)%nat.
Proof. reflexivity. Qed.

Lemma total_counts_cons x p u :
  total (map (fun k => (k, count_eq k (x :: p))) u) =
  (count_eq x u + total (map (fun k => (k, count_eq k p)) u))%nat.
Proof.
  induction u as [|k u IHu]; [reflexivity|].
  rewrite !map_cons, !total_cons, IHu. cbn [snd].
  rewrite !count_eq_cons, (cell_eqb_sym x k).
  destruct (cell_eqb k x); lia.
Qed.

(** The counts of the distinct values of [l] over a column [p] add up
    to the number of cells of [p] that occur in [l]. *)
Lemma total_counts l p :
  total (map (fun k => (k, count_eq k p)) (unique l)) =
  length (List.filter (fun x => cell_in x l) p).
Proof.
  induction p as [|x p IH].
  - simpl. induction (unique l) as [|k u IHu]; simpl; [reflexivity | exact IHu].
  - rewrite total_counts_cons, IH, count_eq_unique. simpl.
    destruct (cell_in x l); simpl; lia.
Qed.

Lemma filter_all {A} (f : A -> bool) l :
  (forall x, In x l -> f x = true) -> List.filter f l = l.
Proof.
  induction l as [|x l IH]; simpl; intros H; [reflexivity|].
  rewrite (H x) by now left. f_equal. apply IH. auto.
Qed.

Lemma cell_in_self x l : In x l -> cell_in x l = true.
Proof.
  intros H. apply cell_in_spec. exists x. split; [assumption | apply cell_eqb_refl].
Qed.

Lemma total_value_counts s : total (value_counts s) = length (dropna s).
Proof.
  unfold value_counts. rewrite total_sort_by, total_counts.
  f_equal. apply filter_all. intros x. apply cell_in_self.
Qed.

Lemma value_counts_In s k n :
  In (k, n) (value_counts s) <->
  In k (unique (dropna s)) /\ n = count_eq k (dropna s).
Proof.
  unfold value_counts. rewrite sort_by_In, in_map_iff. split.
  - intros (k' & [= <- <-] & H). auto.
  - intros [H ->]. eauto.
Qed.


Lemma value_counts_sorted s :
  StronglySorted (fun p q : cell * nat => (snd q <= snd p)%nat) (value_counts s).
Proof.
  unfold value_counts.
  eapply StronglySorted_weaken; [|apply (sort_by_sorted _ (fun _ => True))].
  - intros p q H. now apply Nat.leb_le in H.
  - intros x y _ _. rewrite !Nat.leb_le. lia.
  - intros x y z _ _ _. rewrite !Nat.leb_le. lia.
  - apply List.Forall_forall. trivial.
Qed.

Lemma count_eq_congr a b s :
  cell_eqb a b = true -> count_eq a s = count_eq b s.
Proof.
  intros H. unfold count_eq. f_equal. apply filter_ext.
  intros c. now apply cell_eqb_congr.
Qed.

(** The first entry of the value counts is a most frequent value. *)
Lemma value_counts_head s k n rest :
  value_counts s = (k, n) :: rest ->
  n = count_eq k (dropna s) /\ forall c, (count_eq c (dropna s) <= n)%nat.
Proof.
  intros H.
  assert (In (k, n) (value_counts s)) as Hin by (rewrite H; now left).
  apply value_counts_In in Hin as [_ Hn]. split; [assumption|].
  intros c. destruct (cell_in c (dropna s)) eqn:E.
  - apply unique_complete_in in E as (k' & Hk' & Heq).
    rewrite (count_eq_congr _ _ _ Heq).
    assert (In (k', count_eq k' (dropna s)) (value_counts s)) as Hin'
      by (now apply value_counts_In).
    pose proof (value_counts_sorted s) as Hs. rewrite H in Hs, Hin'.
    apply StronglySorted_inv in Hs as [_ Hs]. rewrite List.Forall_forall in Hs.
    destruct Hin' as [[= <- <-]|Hin']; [lia|]. exact (Hs _ Hin').
  - assert (count_eq c (dropna s) = 0%nat); [|lia].
    destruct (count_eq c (dropna s)) eqn:Ec; [reflexivity|].
    assert (cell_in c (dropna s) = true) by (apply cell_in_eqb_count; lia).
    congruence.
Qed.

(** *** Percentages *)

Lemma value_counts_pct_eq s :
  value_counts_pct s =
  map (fun p => (fst p, pct (snd p) (length (dropna s)))) (value_counts s).
Proof. unfold value_counts_pct. cbv zeta. now rewrite total_value_counts. Qed.


Lemma value_counts_key s k :
  In k (map fst (value_counts s)) -> In k s /\ k <> CNaN.
Proof.
  intros H. apply in_map_iff in H as ([k' n] & <- & H).
  apply value_counts_In in H as [H _].
  apply unique_In, dropna_In in H as [H Hna].
  split; [assumption|]. simpl. intros ->. discriminate.
Qed.






(** ** The script monad *)

Lemma lift_Ok_bind {A B} (a : A) (f : A -> script B) :
  (lift (Ok a) ≫= f) = f a.
Proof. unfold lift, mbind, script_bind. now destruct (f a). Qed.

Lemma lift_Raise_bind {A B} (e : exn) (f : A -> script B) :
  (lift (Raise e : result A) ≫= f) = ([], Crashed e).
Proof. reflexivity. Qed.

Lemma ret_bind {A B} (a : A) (f : A -> script B) :
  (mret a ≫= f) = f a.
Proof. unfold mret, script_ret, mbind, script_bind. now destruct (f a). Qed.

Lemma emit_bind {B} (e : event) (f : unit -> script B) :
  (emit e ≫= f) = (e :: fst (f tt), snd (f tt)).
Proof. unfold emit, mbind, script_bind. now destruct (f tt). Qed.

Lemma stop_bind {A B} (f : A -> script B) :
  (st_stop ≫= f) = ([], Stopped).
Proof. reflexivity. Qed.

Lemma shows_only_bind {A B} P (m : script A) (f : A -> script B) :
  shows_only P m -> (forall a, shows_only P (f a)) -> shows_only P (m ≫= f).
Proof.
  unfold shows_only. destruct m as [log [a| |e]]; simpl; intros Hm Hf; try assumption.
  specialize (Hf a). destruct (f a) as [log' o]. simpl in *.
  apply Forall_app. auto.
Qed.

Lemma shows_only_lift {A} P (r : result A) : shows_only P (lift r).
Proof. destruct r; constructor. Qed.

Lemma shows_only_emit P e : P e -> shows_only P (emit e).
Proof. intros H. repeat constructor. exact H. Qed.

Lemma shows_only_ret {A} P (a : A) : shows_only P (mret a).
Proof. constructor. Qed.

Lemma shows_only_stop {A} P : shows_only P (@st_stop A).
Proof. constructor. Qed.

Ltac shows_only_steps :=
  repeat first
    [ apply shows_only_lift | apply shows_only_ret | apply shows_only_stop
    | apply shows_only_emit; exact I
    | apply shows_only_bind; [|intros ?] ].

(** Below the validation nothing reports a schema error. *)
Lemma dashboard_no_StError df w : shows_only not_StError (dashboard df w).
Proof.
  unfold dashboard, render.
  shows_only_steps.
  destruct (len _ =? 0)%nat; shows_only_steps.
Qed.

(** ** Validation *)



Lemma validate_missing df :
  missing_cols df <> [] -> validate df = ([StError (missing_cols df)], Stopped).
Proof.
  unfold validate. destruct (missing_cols df); [congruence | reflexivity].
Qed.

Lemma validate_complete df :
  missing_cols df = [] -> validate df = ([], Done tt).
Proof. unfold validate. now intros ->. Qed.

Section AppFacts.

Variable parse_float : text -> option Q.
Variable repr_float : Q -> text.
Variable nan_as_text : bool.

Abbreviation load_data' := (load_data parse_float repr_float nan_as_text).
Abbreviation app' := (app parse_float repr_float nan_as_text).

Lemma app_load_error csv w e :
  load_data' csv = Raise e -> app' csv w = ([], Crashed e).
Proof. intros H. unfold app. now rewrite H. Qed.

Lemma app_schema_error csv w df :
  load_data' csv = Ok df -> missing_cols df <> [] ->
  app' csv w = ([StError (missing_cols df)], Stopped).
Proof.
  intros H Hm. unfold app. rewrite H, lift_Ok_bind.
  now rewrite (validate_missing df Hm).
Qed.

Lemma app_validated csv w df :
  load_data' csv = Ok df -> missing_cols df = [] ->
  app' csv w = dashboard df w.
Proof.
  intros H Hm. unfold app. rewrite H, lift_Ok_bind.
  rewrite (validate_complete df Hm).
  exact (ret_bind tt (fun _ => dashboard df w)).
Qed.


Lemma loaded_missing_cols csv df :
  load_data' csv = Ok df ->
  missing_cols df =
  if decide ("marital_status" ∈ columns csv) then [] else ["marital_status"].
Proof.
  intros E. destruct (load_data_rows _ _ _ _ _ E) as (Hall & Hcols & _).
  unfold missing_cols, required_cols. rewrite Hcols. simpl.
  rewrite (bool_decide_eq_true_2 ("gender" ∈ columns csv)),
    (bool_decide_eq_true_2 ("performance_score" ∈ columns csv)),
    (bool_decide_eq_true_2 ("average_work_hours" ∈ columns csv)),
    (bool_decide_eq_true_2 ("age" ∈ columns csv)),
    (bool_decide_eq_true_2 ("salary" ∈ columns csv))
    by (apply Hall; simpl; tauto).
  destruct (decide ("marital_status" ∈ columns csv)) as [Hm|Hm].
  - now rewrite bool_decide_eq_true_2 by assumption.
  - now rewrite bool_decide_eq_false_2 by assumption.
Qed.

(** C9: when the CSV lacks one of department, gender, performance_score,
    salary, average_work_hours or age, the pass ends in [load_data] with a
    [KeyError] for such a column and shows nothing.  The pass shows the
    schema error exactly when the CSV has those six columns and lacks
    marital_status, and the list it shows is then [marital_status]
    alone. *)
Theorem schema_error_only_marital csv w :
  ((exists c, In c loader_cols /\ c ∉ columns csv) ->
     exists c', In c' loader_cols /\ (c' ∉ columns csv) /\
                app' csv w = ([], Crashed (KeyError c'))) /\
  (forall missing, In (StError missing) (fst (app' csv w)) ->
     missing = ["marital_status"] /\
     (forall c, In c loader_cols -> c ∈ columns csv) /\
     ("marital_status" ∉ columns csv)) /\
  ((forall c, In c loader_cols -> c ∈ columns csv) ->
   "marital_status" ∉ columns csv ->
   app' csv w = ([StError ["marital_status"]], Stopped)).
Proof.
  split; [|split].
  - intros (c & Hc & Hn).
    destruct (load_data' csv) as [df|e] eqn:E.
    + apply load_data_rows in E as (Hall & _). destruct Hn. auto.
    + destruct (load_data_Raise _ _ _ _ _ E) as (c' & -> & Hc' & Hn').
      exists c'. repeat split; try assumption. now apply app_load_error.
  - intros missing Hin.
    destruct (load_data' csv) as [df|e] eqn:E.
    2:{ rewrite (app_load_error _ _ _ E) in Hin. destruct Hin. }
    pose proof (loaded_missing_cols _ _ E) as Hmiss.
    destruct (load_data_rows _ _ _ _ _ E) as (Hall & _ & _).
    destruct (decide ("marital_status" ∈ columns csv)) as [Hm|Hm].
    + rewrite (app_validated _ _ _ E Hmiss) in Hin.
      pose proof (dashboard_no_StError df w) as Hno.
      unfold shows_only in Hno. rewrite List.Forall_forall in Hno.
      destruct (Hno _ Hin).
    + assert (missing_cols df <> []) as Hne by (rewrite Hmiss; discriminate).
      rewrite (app_schema_error _ _ _ E Hne), Hmiss in Hin.
      simpl in Hin. destruct Hin as [[= <-]|[]]. auto.
  - intros Hall Hm.
    destruct (load_data_total parse_float repr_float nan_as_text csv Hall) as [df E].
    pose proof (loaded_missing_cols _ _ E) as Hmiss.
    destruct (decide ("marital_status" ∈ columns csv)); [contradiction|].
    assert (missing_cols df <> []) as Hne by (rewrite Hmiss; discriminate).
    now rewrite (app_schema_error _ _ _ E Hne), Hmiss.
Qed.

(** *** Loaded tables *)

Lemma loaded_gender_str csv df r :
  load_data' csv = Ok df -> In r (rows df) ->
  (exists s, at_col "gender" r = CStr s) \/
  (nan_as_text = false /\ at_col "gender" r = CNaN).
Proof.
  intros H Hr. apply load_data_rows in H as (_ & _ & Hrows).
  rewrite Hrows in Hr. apply in_map_iff in Hr as (r0 & <- & _).
  rewrite load_row_gender.
  destruct (clean_cell_trimmed repr_float nan_as_text (at_col "gender" r0))
    as [(s & Hs & _)|(Hv & _ & Hn)]; eauto.
Qed.

Lemma loaded_gender_not_num csv df r :
  load_data' csv = Ok df -> In r (rows df) ->
  is_num (at_col "gender" r) = false.
Proof.
  intros H Hr.
  destruct (loaded_gender_str _ _ _ H Hr) as [[s ->]|[_ ->]]; reflexivity.
Qed.

Lemma loaded_numeric_no_str csv df c :
  load_data' csv = Ok df -> In c numeric_cols ->
  existsb is_str (map (at_col c) (rows df)) = false.
Proof.
  intros H Hc. apply load_data_rows in H as (_ & _ & Hrows).
  destruct (existsb _ _) eqn:E; [|reflexivity].
  apply existsb_exists in E as (x & Hx & Hs).
  apply in_map_iff in Hx as (r & <- & Hr).
  rewrite Hrows in Hr. apply in_map_iff in Hr as (r0 & <- & _).
  rewrite load_row_numeric in Hs by assumption.
  pose proof (to_numeric1_numeric parse_float (at_col c r0)) as Hn.
  destruct (to_numeric1 _ _); discriminate.
Qed.

Lemma loaded_score_no_str csv df :
  load_data' csv = Ok df ->
  existsb is_str (map (at_col "performance_score") (rows df)) = false.
Proof. intros H. apply (loaded_numeric_no_str csv df _ H). simpl. tauto. Qed.

Lemma loaded_gender_options csv df :
  load_data' csv = Ok df -> exists opts, gender_options df = Ok opts.
Proof.
  intros H. unfold gender_options.
  destruct (load_data_rows _ _ _ _ _ H) as (Hall & Hcols & _).
  rewrite getcol_Ok by (rewrite Hcols; apply Hall; simpl; tauto).
  cbn [mbind result_bind]. apply options_str.
  intros c Hc. apply in_map_iff in Hc as (r & <- & Hr).
  now apply (loaded_gender_not_num csv df).
Qed.

Lemma loaded_columns csv df c :
  load_data' csv = Ok df -> In c loader_cols -> c ∈ columns df.
Proof.
  intros H Hc. apply load_data_rows in H as (Hall & -> & _). auto.
Qed.

(** C10, amended: what the string cast does to a missing gender or
    department depends on the pandas the script runs on.  Before pandas 3
    ([nan_as_text = true]) no loaded gender or department cell is NaN: a
    cell that was NaN in the CSV holds the string "nan"; when some row of
    the CSV has no gender, "nan" is among the gender options; and a loaded
    row whose gender is "nan" is in the filtered view as soon as "nan" is
    selected and the row passes the score and marital-status tests.  From
    pandas 3 on ([nan_as_text = false]) a cell that was NaN in the CSV is
    NaN after load; the gender options hold no NaN, and each of them is
    the cleaned gender of a row that had one; and a row without gender is
    in no filtered view, whatever values are selected. *)
Theorem missing_gender_becomes_nan csv df :
  load_data parse_float repr_float nan_as_text csv = Ok df ->
  (nan_as_text = true ->
     (forall r c, In r (rows df) -> c = "gender" \/ c = "department" ->
        isna (at_col c r) = false) /\
     (forall i r c, rows csv !! i = Some r ->
        c = "gender" \/ c = "department" -> at_col c r = CNaN ->
        exists r', rows df !! i = Some r' /\ at_col c r' = CStr (txt "nan")) /\
     ((exists r, In r (rows csv) /\ at_col "gender" r = CNaN) ->
        exists opts, gender_options df = Ok opts /\ In (CStr (txt "nan")) opts) /\
     (forall w r, In r (rows df) -> at_col "gender" r = CStr (txt "nan") ->
        In (CStr (txt "nan")) (gender_sel w) ->
        between1 (fst (score_range w)) (snd (score_range w))
                 (at_col "performance_score" r) = true ->
        cell_in (at_col "marital_status" r) (marital_sel w) = true ->
        "marital_status" ∈ columns df ->
        exists view, df_f df w = Ok view /\ In r (rows view))) /\
  (nan_as_text = false ->
     (forall i r c, rows csv !! i = Some r ->
        c = "gender" \/ c = "department" -> at_col c r = CNaN ->
        exists r', rows df !! i = Some r' /\ at_col c r' = CNaN) /\
     (exists opts,
        gender_options df = Ok opts /\ ~ In CNaN opts /\
        forall v, In v opts ->
          exists r, In r (rows csv) /\ at_col "gender" r <> CNaN /\
                    v = str_strip1 (astype_str1 repr_float nan_as_text
                                                (at_col "gender" r))) /\
     (forall w view r, df_f df w = Ok view -> ~ In CNaN (gender_sel w) ->
        In r (rows df) -> at_col "gender" r = CNaN -> ~ In r (rows view))).
Proof.
  intros H. destruct (load_data_rows _ _ _ _ _ H) as (Hall & Hcols & Hrows).
  split; intros Hv.
  - split; [|split; [|split]].
    + intros r c Hr Hc. rewrite Hrows in Hr. apply in_map_iff in Hr as (r0 & <- & _).
      destruct Hc as [-> | ->];
        [rewrite load_row_gender | rewrite load_row_department];
        rewrite Hv; now destruct (at_col _ r0).
    + intros i r c Hi Hc Hna. exists (load_row parse_float repr_float nan_as_text r).
      split; [now rewrite Hrows, lookup_map, Hi|].
      destruct Hc as [-> | ->];
        [rewrite load_row_gender | rewrite load_row_department];
        now rewrite Hna, Hv.
    + intros (r & Hr & Hna).
      destruct (loaded_gender_options _ _ H) as [opts Hopts]. exists opts.
      split; [assumption|]. unfold gender_options in Hopts.
      apply bind_Ok in Hopts as (g & Hg & Hopts). apply getcol_inv in Hg as [_ ->].
      apply options_spec in Hopts as [_ Hopts].
      assert (cell_in (CStr (txt "nan")) opts = true) as Hin.
      { apply Hopts; [|reflexivity]. apply in_map_iff.
        exists (load_row parse_float repr_float nan_as_text r). split.
        - now rewrite load_row_gender, Hna, Hv.
        - rewrite Hrows. now apply in_map. }
      apply cell_in_spec in Hin as (v & Hin & Heq).
      apply cell_eqb_str in Heq as ->. assumption.
    + intros w r Hr Hg Hsel Hscore Hmar Hm.
      eexists. split.
      * apply df_f_rows;
          [ apply (loaded_columns _ _ _ H); simpl; tauto
          | apply (loaded_columns _ _ _ H); simpl; tauto
          | assumption
          | apply (loaded_score_no_str _ _ H) ].
      * simpl. apply filter_In. split; [assumption|].
        unfold keeps. rewrite Hscore, Hmar, Hg, !andb_true_r.
        apply cell_in_spec. exists (CStr (txt "nan")). split; [assumption | reflexivity].
  - split; [|split].
    + intros i r c Hi Hc Hna. exists (load_row parse_float repr_float nan_as_text r).
      split; [now rewrite Hrows, lookup_map, Hi|].
      destruct Hc as [-> | ->];
        [rewrite load_row_gender | rewrite load_row_department];
        now rewrite Hna, Hv.
    + destruct (loaded_gender_options _ _ H) as [opts Hopts]. exists opts.
      split; [assumption|]. unfold gender_options in Hopts.
      apply bind_Ok in Hopts as (g & Hg & Hopts). apply getcol_inv in Hg as [_ ->].
      split; [exact (options_no_nan _ _ Hopts)|].
      apply options_spec in Hopts as [Hopts _].
      intros v Hin. apply Hopts in Hin as [Hin Hna].
      apply in_map_iff in Hin as (r' & <- & Hr').
      rewrite Hrows in Hr'. apply in_map_iff in Hr' as (r0 & <- & Hr0).
      rewrite load_row_gender in *.
      exists r0. split; [assumption|]. split; [|reflexivity].
      intros E. rewrite E, Hv in Hna. discriminate.
    + intros w view r Hview Hsel Hr Hg Hin.
      destruct (df_f_inv _ _ _ Hview) as (Hcg & Hcp & Hcm & Hnum).
      rewrite df_f_rows in Hview by assumption. injection Hview as <-.
      simpl in Hin. apply filter_In in Hin as [_ Hk].
      unfold keeps in Hk. rewrite Hg in Hk.
      destruct (cell_in CNaN (gender_sel w)) eqn:E; [|discriminate].
      apply cell_in_spec in E as (v & Hin & Heq).
      destruct v; try discriminate. contradiction.
Qed.



(** C2, amended: for a loaded table that has a marital_status column
    whose options can be listed and at least one score, the gender options
    and both slider bounds exist; the bounds are the truncations of the
    least and of the greatest score.  Filtering with all gender options,
    the range from the lower to the upper bound and all marital-status
    options keeps exactly the rows that have a value under gender,
    performance_score and marital_status if and only if the two bounds
    still bracket the score of every such row; this is the case as soon as
    truncation has not moved the lower bound above the least score nor the
    upper bound below the greatest. *)
Theorem full_selection_keeps_complete_rows csv df mopts :
  load_data parse_float repr_float nan_as_text csv = Ok df ->
  marital_options df = Ok mopts ->
  (exists r x, In r (rows df) /\ at_col "performance_score" r = CNum x) ->
  exists gopts lo hi view mn mx,
    gender_options df = Ok gopts /\
    min_score df = Ok lo /\ max_score df = Ok hi /\
    df_f df (mkWidgets gopts (lo, hi) mopts) = Ok view /\
    columns view = columns df /\
    lo = trunc mn /\ hi = trunc mx /\
    (exists r, In r (rows df) /\ at_col "performance_score" r = CNum mn) /\
    (exists r, In r (rows df) /\ at_col "performance_score" r = CNum mx) /\
    (forall r x, In r (rows df) -> at_col "performance_score" r = CNum x ->
       (mn <= x)%Q /\ (x <= mx)%Q) /\
    (rows view = List.filter complete_row (rows df) <->
     forall r x, In r (rows df) -> complete_row r = true ->
       at_col "performance_score" r = CNum x ->
       (inject_Z lo <= x)%Q /\ (x <= inject_Z hi)%Q) /\
    ((inject_Z (trunc mn) <= mn)%Q -> (mx <= inject_Z (trunc mx))%Q ->
     rows view = List.filter complete_row (rows df)).
Proof.
  intros Hl Hmo (r1 & x1 & Hr1 & Hx1).
  destruct (loaded_gender_options _ _ Hl) as [gopts Hgo].
  assert ("gender" ∈ columns df) as Hcg by (apply (loaded_columns _ _ _ Hl); simpl; tauto).
  assert ("performance_score" ∈ columns df) as Hcp by (apply (loaded_columns _ _ _ Hl); simpl; tauto).
  assert ("marital_status" ∈ columns df) as Hcm.
  { unfold marital_options in Hmo. apply bind_Ok in Hmo as (m & Hm & _).
    now apply getcol_inv in Hm as [Hm _]. }
  destruct (int_bounds (map (at_col "performance_score") (rows df)) x1)
    as (mn & mx & Hmin & Hmax & Hmn & Hmx & Hbr).
  { now apply (loaded_score_no_str csv). }
  { apply in_map_iff. eauto. }
  exists gopts, (trunc mn), (trunc mx). eexists. exists mn, mx.
  split; [assumption|].
  split; [unfold min_score; now rewrite getcol_Ok by assumption|].
  split; [unfold max_score; now rewrite getcol_Ok by assumption|].
  split; [apply df_f_rows; try assumption; apply (loaded_score_no_str _ _ Hl)|].
  simpl. split; [reflexivity|]. split; [reflexivity|]. split; [reflexivity|].
  split; [apply in_map_iff in Hmn as (rn & Hrn & Hin_n); eauto|].
  split; [apply in_map_iff in Hmx as (rx & Hrx & Hin_x); eauto|].
  assert (forall r x, In r (rows df) -> at_col "performance_score" r = CNum x ->
                      (mn <= x)%Q /\ (x <= mx)%Q) as Hbr'.
  { intros r x Hr Hx. apply Hbr. rewrite <- Hx. now apply in_map. }
  split; [exact Hbr'|].
  unfold gender_options in Hgo. rewrite getcol_Ok in Hgo by assumption.
  unfold marital_options in Hmo. rewrite getcol_Ok in Hmo by assumption.
  cbn [mbind result_bind] in Hgo, Hmo.
  pose proof (options_no_nan _ _ Hmo) as Hnan.
  pose proof (options_no_nan _ _ Hgo) as Hnang.
  apply options_spec in Hgo as [_ Hgo]. apply options_spec in Hmo as [_ Hmo].
  assert (forall opts, ~ In CNaN opts -> cell_in CNaN opts = false) as Hnot.
  { intros opts Hn. destruct (cell_in CNaN opts) eqn:E; [|reflexivity].
    apply cell_in_spec in E as (v & Hv & Heq).
    destruct v; try discriminate. contradiction. }
  assert (forall r, In r (rows df) ->
            keeps (mkWidgets gopts (trunc mn, trunc mx) mopts) r =
            complete_row r &&
            between1 (trunc mn) (trunc mx) (at_col "performance_score" r))
    as Hkeeps.
  { intros r Hr. unfold keeps, complete_row.
    cbn [gender_sel score_range marital_sel fst snd].
    assert (cell_in (at_col "gender" r) gopts = negb (isna (at_col "gender" r))) as ->.
    { destruct (at_col "gender" r) as [t|y|] eqn:Hy.
      - apply Hgo; [rewrite <- Hy; now apply in_map | reflexivity].
      - apply Hgo; [rewrite <- Hy; now apply in_map | reflexivity].
      - now apply Hnot. }
    assert (cell_in (at_col "marital_status" r) mopts =
            negb (isna (at_col "marital_status" r))) as ->.
    { destruct (at_col "marital_status" r) as [t|y|] eqn:Hy.
      - apply Hmo; [rewrite <- Hy; now apply in_map | reflexivity].
      - apply Hmo; [rewrite <- Hy; now apply in_map | reflexivity].
      - now apply Hnot. }
    destruct (at_col "performance_score" r) as [t|y|]; cbn [between1 isna negb];
      rewrite ?andb_false_r; try reflexivity.
    destruct (negb (isna (at_col "gender" r))),
             (negb (isna (at_col "marital_status" r))),
             (Qle_bool (inject_Z (trunc mn)) y && Qle_bool y (inject_Z (trunc mx)));
      reflexivity. }
  assert ((forall r x, In r (rows df) -> complete_row r = true ->
             at_col "performance_score" r = CNum x ->
             (inject_Z (trunc mn) <= x)%Q /\ (x <= inject_Z (trunc mx))%Q) ->
          List.filter (keeps (mkWidgets gopts (trunc mn, trunc mx) mopts)) (rows df) =
          List.filter complete_row (rows df)) as Hsuff.
  { intros Hin. apply filter_ext_in. intros r Hr. rewrite Hkeeps by assumption.
    destruct (complete_row r) eqn:Ec; [|reflexivity]. simpl.
    destruct (at_col "performance_score" r) as [t|y|] eqn:Hy.
    - pose proof (loaded_score_no_str _ _ Hl) as Hs.
      assert (existsb is_str (map (at_col "performance_score") (rows df)) = true) as Ht.
      { apply existsb_exists. exists (CStr t). split; [|reflexivity].
        rewrite <- Hy. now apply in_map. }
      congruence.
    - destruct (Hin r y Hr Ec Hy) as [H1 H2]. cbn [between1].
      apply andb_true_iff. split; now apply Qle_bool_iff.
    - unfold complete_row in Ec. rewrite Hy in Ec. cbn [isna negb] in Ec.
      rewrite andb_false_r in Ec. discriminate. }
  split; [split|].
  - intros Heq r x Hr Hc Hx.
    assert (In r (List.filter complete_row (rows df))) as Hin
      by (apply filter_In; auto).
    rewrite <- Heq in Hin. apply filter_In in Hin as [_ Hk].
    rewrite Hkeeps, Hc, Hx in Hk by assumption. cbn [between1 andb] in Hk.
    apply andb_true_iff in Hk as [H1 H2]. split; now apply Qle_bool_iff.
  - exact Hsuff.
  - intros Hlo Hhi. apply Hsuff. intros r x Hr _ Hx.
    destruct (Hbr' r x Hr Hx) as [H1 H2].
    split; [eapply Qle_trans; eassumption | eapply Qle_trans; eassumption].
Qed.

(** *** Views of a loaded table *)



End AppFacts.

(** *** The grouped mean in the words of the specification *)








(** ** The theorems on the sample tables *)

Ltac in_columns := apply list_elem_of_In; simpl; tauto.

Lemma header_has_loader_cols rws c :
  In c loader_cols -> c ∈ columns (mkDF header rws).
Proof.
  intros H. apply list_elem_of_In. simpl in *.
  repeat (destruct H as [<-|H]; [tauto|]). destruct H.
Qed.

Lemma load_data_coerces_numeric_messy :
  exists df,
    load_data parse_decimal repr_integral pandas2 messy = Ok df /\
    length (rows df) = 3%nat /\
    (exists r, rows df !! 0%nat = Some r /\
               at_col "performance_score" r = CNum 3) /\
    (exists r, rows df !! 2%nat = Some r /\
               at_col "performance_score" r = CNaN) /\
    (exists r, rows df !! 2%nat = Some r /\
               at_col "average_work_hours" r = CNaN) /\
    (exists r, rows df !! 1%nat = Some r /\ at_col "salary" r = CNum 20000) /\
    (exists r, rows df !! 1%nat = Some r /\ at_col "age" r = CNum 30).
Proof.
  destruct (load_data_coerces_numeric parse_decimal repr_integral pandas2 messy)
    as (df & Hdf & Hlen & Hcells); try in_columns.
  exists df. split; [assumption|]. split; [exact Hlen|].
  split; [|split; [|split; [|split]]].
  - destruct (Hcells 0%nat _ "performance_score" eq_refl)
      as (r' & Hr' & _ & _ & Hparse & _); [tauto|].
    exists r'. split; [assumption|].
    apply (Hparse (txt "3")); vm_compute; reflexivity.
  - destruct (Hcells 2%nat _ "performance_score" eq_refl)
      as (r' & Hr' & _ & _ & _ & Hfail & _); [tauto|].
    exists r'. split; [assumption|].
    apply (Hfail (txt "n.d.")); vm_compute; reflexivity.
  - destruct (Hcells 2%nat _ "average_work_hours" eq_refl)
      as (r' & Hr' & _ & _ & _ & _ & Hnan); [tauto|].
    exists r'. split; [assumption|].
    apply Hnan; vm_compute; reflexivity.
  - destruct (Hcells 1%nat _ "salary" eq_refl)
      as (r' & Hr' & _ & Hnum & _); [tauto|].
    exists r'. split; [assumption|].
    apply Hnum; vm_compute; reflexivity.
  - destruct (Hcells 1%nat _ "age" eq_refl)
      as (r' & Hr' & _ & Hnum & _); [tauto|].
    exists r'. split; [assumption|].
    apply Hnum; vm_compute; reflexivity.
Defined.

Lemma loaded_Ok csv :
  (forall c, In c loader_cols -> c ∈ columns csv) ->
  load_data parse_decimal repr_integral pandas2 csv = Ok (loaded csv).
Proof.
  intros H. destruct (load_data_total parse_decimal repr_integral pandas2 csv H) as [df Hdf].
  unfold loaded. now rewrite Hdf.
Qed.

Lemma employees_load :
  load_data parse_decimal repr_integral pandas2 employees = Ok (loaded employees).
Proof. apply loaded_Ok, header_has_loader_cols. Qed.

Lemma load_data_trims_employees :
  (forall r c, In r (rows (loaded employees)) ->
     c = "gender" \/ c = "department" ->
     exists s, at_col c r = CStr s /\ trimmed s) /\
  (forall i r, rows employees !! i = Some r -> at_col "gender" r = CStr (txt "M ") ->
     exists r', rows (loaded employees) !! i = Some r' /\
                at_col "gender" r' = CStr (txt "M") /\
                cell_in (at_col "gender" r') [CStr (txt "M")] = true).
Proof.
  destruct (load_data_trims parse_decimal repr_integral pandas2 employees
              (loaded employees) employees_load) as [H1 H2].
  split; [|exact H2].
  intros r c Hr Hc. destruct (H1 r c Hr Hc) as [H|[Hv _]];
    [exact H | discriminate Hv].
Defined.

Lemma loaded_header rws c :
  In c header -> c ∈ columns (loaded (mkDF header rws)).
Proof.
  intros H.
  pose proof (loaded_Ok (mkDF header rws) (header_has_loader_cols rws)) as Hl.
  apply load_data_rows in Hl as (_ & -> & _). now apply list_elem_of_In.
Qed.

Lemma loaded_header_score rws :
  numeric_column (loaded (mkDF header rws)) "performance_score".
Proof.
  apply (loaded_score_no_str parse_decimal repr_integral pandas2 (mkDF header rws)).
  apply loaded_Ok, header_has_loader_cols.
Qed.

Lemma filter_keeps_exactly_scenario :
  exists view,
    df_f (loaded employees) scenario = Ok view /\
    rows view = List.filter (keeps scenario) (rows (loaded employees)) /\
    forall r, In r (rows view) -> included scenario r.
Proof.
  destruct (filter_keeps_exactly (loaded employees) scenario)
    as (view & Hv & _ & Hrows & Hin & _).
  - simpl. intuition discriminate.
  - simpl. intuition discriminate.
  - apply loaded_header. simpl. tauto.
  - apply loaded_header. simpl. tauto.
  - apply loaded_header. simpl. tauto.
  - apply loaded_header_score.
  - exists view. split; [assumption|]. split; [assumption|].
    intros r Hr. now apply Hin.
Defined.

(** The scenario of the specification: of the four employees only the
    one stored as "M ", single, with score 3, is kept. *)
Example scenario_view :
  (fun view => map (fun r => (at_col "id_employee" r, at_col "gender" r))
                   (rows view))
    <$> (match df_f (loaded employees) scenario with
         | Ok v => Some v
         | Raise _ => None
         end)
  = Some [(CNum 1, CStr (txt "M"))].
Proof. vm_compute. reflexivity. Qed.





Lemma schema_error_only_marital_no_salary :
  exists c', In c' loader_cols /\ (c' ∉ columns no_salary) /\
    app parse_decimal repr_integral pandas2 no_salary scenario =
    ([], Crashed (KeyError c')).
Proof.
  apply (proj1 (schema_error_only_marital parse_decimal repr_integral pandas2
                  no_salary scenario)).
  exists "salary". split; [simpl; tauto|].
  intros Hin. apply list_elem_of_In in Hin. vm_compute in Hin.
  repeat (destruct Hin as [Hin|Hin]; [discriminate|]). destruct Hin.
Defined.

(** A CSV without the salary column never reaches the validation. *)
Example no_salary_crashes :
  app parse_decimal repr_integral pandas2 no_salary scenario =
  ([], Crashed (KeyError "salary")).
Proof. vm_compute. reflexivity. Qed.

Lemma messy_load :
  load_data parse_decimal repr_integral pandas2 messy = Ok (loaded messy).
Proof. apply loaded_Ok, header_has_loader_cols. Qed.

Lemma missing_gender_becomes_nan_messy :
  (forall r c, In r (rows (loaded messy)) -> c = "gender" \/ c = "department" ->
     isna (at_col c r) = false) /\
  exists opts,
    gender_options (loaded messy) = Ok opts /\ In (CStr (txt "nan")) opts.
Proof.
  destruct (proj1 (missing_gender_becomes_nan parse_decimal repr_integral pandas2
                     messy (loaded messy) messy_load) eq_refl)
    as (H1 & _ & H & _).
  split; [exact H1|]. apply H.
  exists (employee 2 CNaN (CStr (txt "Married")) (CStr (txt "4")) CNaN (CNum 30)).
  split; [simpl; tauto | vm_compute; reflexivity].
Defined.

(** In [messy], on pandas 2, the employee without a gender is kept by
    the default selection, which includes "nan". *)
Example messy_nan_selected :
  (fun view => map (fun r => (at_col "id_employee" r, at_col "gender" r))
                   (rows view))
    <$> (match df_f (loaded messy)
                 (mkWidgets [CStr (txt "F"); CStr (txt "M"); CStr (txt "nan")] (3, 4)%Z
                            [CStr (txt "Married"); CStr (txt "Single")]) with
         | Ok v => Some v
         | Raise _ => None
         end)
  = Some [(CNum 1, CStr (txt "M")); (CNum 2, CStr (txt "nan"))].
Proof. vm_compute. reflexivity. Qed.

(** C10 as stated fails on pandas 3: the employee of [messy] whose gender
    is missing in the CSV has a missing gender after load, the gender
    options are F and M, without "nan", and the default selection, which
    is all of them, leaves that employee out. *)
Lemma missing_gender_stays_missing :
  exists df r view,
    load_data parse_decimal repr_integral pandas3 messy = Ok df /\
    rows df !! 1%nat = Some r /\ at_col "gender" r = CNaN /\
    gender_options df = Ok [CStr (txt "F"); CStr (txt "M")] /\
    df_f df (mkWidgets [CStr (txt "F"); CStr (txt "M")] (3, 4)%Z
                       [CStr (txt "Married"); CStr (txt "Single")]) = Ok view /\
    map (at_col "id_employee") (rows view) = [CNum 1].
Proof.
  destruct (load_data_total parse_decimal repr_integral pandas3 messy
              (header_has_loader_cols _)) as [df Hdf].
  destruct (load_data_rows _ _ _ _ _ Hdf) as (_ & Hcols & Hrows).
  assert (forall c, In c header -> c ∈ columns df) as Hin.
  { intros c Hc. rewrite Hcols. now apply list_elem_of_In. }
  exists df.
  exists (load_row parse_decimal repr_integral pandas3
            (employee 2 CNaN (CStr (txt "Married")) (CStr (txt "4")) CNaN (CNum 30))).
  eexists.
  split; [assumption|].
  split; [rewrite Hrows; reflexivity|].
  split; [vm_compute; reflexivity|].
  split.
  { unfold gender_options. rewrite getcol_Ok by (apply Hin; simpl; tauto).
    cbn [mbind result_bind]. rewrite Hrows. vm_compute. reflexivity. }
  split.
  { apply df_f_rows; try (apply Hin; simpl; tauto).
    exact (loaded_score_no_str _ _ _ _ _ Hdf). }
  cbn [rows]. rewrite Hrows. vm_compute. reflexivity.
Qed.

Lemma halves_load :
  load_data parse_decimal repr_integral pandas2 halves = Ok (loaded halves).
Proof. apply loaded_Ok, header_has_loader_cols. Qed.

Lemma full_selection_keeps_complete_rows_halves :
  exists gopts view,
    gender_options (loaded halves) = Ok gopts /\
    min_score (loaded halves) = Ok 0%Z /\
    max_score (loaded halves) = Ok 4%Z /\
    df_f (loaded halves)
         (mkWidgets gopts (0, 4)%Z [CStr (txt "Married"); CStr (txt "Single")]) = Ok view /\
    columns view = columns (loaded halves) /\
    rows view = List.filter complete_row (rows (loaded halves)).
Proof.
  destruct (full_selection_keeps_complete_rows parse_decimal repr_integral pandas2
              halves (loaded halves) [CStr (txt "Married"); CStr (txt "Single")]
              halves_load)
    as (gopts & lo & hi & view & mn & mx & Hg & Hlo & Hhi & Hv & Hc & _ & _ &
        (rn & Hrn & Hmn) & (rx & Hrx & Hmx) & Hbr & _ & Hsuff).
  - vm_compute. reflexivity.
  - exists (load_row parse_decimal repr_integral pandas2
              (employee 1 (CStr (txt "M")) (CStr (txt "Single")) (CNum 1)
                        (CStr (txt "PIP")) (CNum 40))), 1%Q.
    split; [|vm_compute; reflexivity].
    rewrite (proj2 (proj2 (load_data_rows _ _ _ _ _ halves_load))).
    apply in_map. simpl. tauto.
  - pose proof (proj2 (proj2 (load_data_rows _ _ _ _ _ halves_load))) as Hrows.
    assert (lo = 0%Z) as ->.
    { assert (min_score (loaded halves) = Ok 0%Z) as E by (vm_compute; reflexivity).
      congruence. }
    assert (hi = 4%Z) as ->.
    { assert (max_score (loaded halves) = Ok 4%Z) as E by (vm_compute; reflexivity).
      congruence. }
    assert (4 <= mx)%Q as H4.
    { apply (Hbr (load_row parse_decimal repr_integral pandas2
                    (employee 4 (CStr (txt "F")) (CStr (txt "Single")) (CNum 4)
                              (CStr (txt "Meets")) (CNum 36))) 4%Q);
        [|vm_compute; reflexivity].
      rewrite Hrows. apply in_map. simpl. tauto. }
    exists gopts, view. repeat (split; [assumption|]).
    apply Hsuff.
    + rewrite Hrows in Hrn.
      apply in_map_iff in Hrn as (r0 & <- & Hr). simpl in Hr.
      repeat (destruct Hr as [<-|Hr];
              [vm_compute in Hmn; injection Hmn as Hq; subst mn;
               vm_compute; intros Hd; discriminate Hd|]).
      destruct Hr.
    + rewrite Hrows in Hrx.
      apply in_map_iff in Hrx as (r0 & <- & Hr). simpl in Hr.
      repeat (destruct Hr as [<-|Hr];
              [vm_compute in Hmx; injection Hmx as Hq; subst mx;
               first [ solve [vm_compute; intros Hd; discriminate Hd]
                     | exfalso; vm_compute in H4; apply H4; reflexivity ]|]).
      destruct Hr.
Defined.

(** C2 as stated fails on a table with a score that is not an integer:
    the upper bound of the slider is the truncated maximum, 4, so with
    every option selected and the full slider range the employee with
    score 4.5 is dropped, although no cell of that row is missing. *)
Lemma full_selection_drops_fractional_score :
  load_data parse_decimal repr_integral pandas2 fractional = Ok (loaded fractional) /\
  gender_options (loaded fractional) = Ok [CStr (txt "F"); CStr (txt "M")] /\
  min_score (loaded fractional) = Ok 1%Z /\
  max_score (loaded fractional) = Ok 4%Z /\
  marital_options (loaded fractional) = Ok [CStr (txt "Married"); CStr (txt "Single")] /\
  length (List.filter complete_row (rows (loaded fractional))) = 2%nat /\
  exists view,
    df_f (loaded fractional) defaults = Ok view /\
    length (rows view) = 1%nat /\
    rows view <> List.filter complete_row (rows (loaded fractional)).
Proof.
  split; [apply loaded_Ok, header_has_loader_cols|].
  repeat (split; [vm_compute; reflexivity|]).
  exists (mkDF (columns (loaded fractional))
               (List.filter (keeps defaults) (rows (loaded fractional)))).
  split; [apply df_f_rows;
          first [apply loaded_header_score | apply loaded_header; simpl; tauto]|].
  split; [vm_compute; reflexivity|].
  intros H. apply (f_equal (@length _)) in H. vm_compute in H. discriminate.
Qed.



(** Of the four employees two meet expectations: 50, 25 and 25 per cent. *)
Example employees_perf_counts :
  valueCounts_pct employees "performance_score_desc" =
  Ok [(CStr (txt "Meets"), float_of_nat 50); (CStr (txt "Needs"), float_of_nat 25);
      (CStr (txt "PIP"), float_of_nat 25)].
Proof. vm_compute. reflexivity. Qed.


(** On the unlabelled view the pass itself ends with the [IndexError] of
    [perf_counts.index[0]]. *)
Example unlabelled_view_crashes :
  snd (app parse_decimal repr_integral pandas3 unlabelled
         (mkWidgets [CStr (txt "F")] (3, 4)%Z [CStr (txt "Single")]))
  = Crashed IndexError.
Proof. vm_compute. reflexivity. Qed.

(* ================================================================== *)
(** * Further properties of the script *)

(** ** Whitespace *)

Lemma lstrip_split s :
  exists pre, s = pre ++ lstrip s /\ all_space pre = true.
Proof.
  induction s as [|a s (pre & IH & Hpre)]; simpl.
  - exists []. auto.
  - destruct (is_space a) eqn:Ha.
    + exists (a :: pre). split.
      * simpl. now f_equal.
      * simpl. now rewrite Ha, Hpre.
    + exists []. auto.
Qed.

Lemma rstrip_split s :
  exists suf, s = rstrip s ++ suf /\ all_space suf = true.
Proof.
  induction s as [|a s (suf & IH & Hsuf)]; simpl.
  - exists []. auto.
  - destruct (rstrip s) as [|c t] eqn:Hr.
    + simpl in IH. subst s. destruct (is_space a) eqn:Ha.
      * exists (a :: suf). simpl. now rewrite Ha, Hsuf.
      * exists suf. auto.
    + exists suf. split; [|assumption].
      simpl. now f_equal.
Qed.

Lemma lstrip_id s :
  (forall a, first_char s = Some a -> is_space a = false) -> lstrip s = s.
Proof.
  destruct s as [|a s]; simpl; [reflexivity|].
  intros H. now rewrite (H a eq_refl).
Qed.

Lemma rstrip_id s :
  (forall a, last_char s = Some a -> is_space a = false) -> rstrip s = s.
Proof.
  induction s as [|a s IH]; simpl; [reflexivity|]. intros H.
  destruct s as [|c t].
  - simpl. now rewrite (H a eq_refl).
  - rewrite IH by exact H. reflexivity.
Qed.

Lemma strip_id s : trimmed s -> strip s = s.
Proof.
  intros [H1 H2]. unfold strip. rewrite (lstrip_id s H1). now apply rstrip_id.
Qed.

Lemma strip_split s :
  exists pre suf,
    s = pre ++ strip s ++ suf /\ all_space pre = true /\ all_space suf = true.
Proof.
  destruct (lstrip_split s) as (pre & Hs & Hpre).
  destruct (rstrip_split (lstrip s)) as (suf & Hl & Hsuf).
  exists pre, suf. unfold strip. rewrite <- Hl. auto.
Qed.

(** ** The loader as a whole *)

Section LoaderMore.

Variable parse_float : text -> option Q.
Variable repr_float : Q -> text.
Variable nan_as_text : bool.

Abbreviation load2 := (load_data parse_float repr_float nan_as_text).
Abbreviation cleaned := (load_row parse_float repr_float nan_as_text).

Lemma load_row_lookup_other r c :
  ~ In c loader_cols -> cleaned r !! c = r !! c.
Proof.
  intros H. unfold load_row, coerce, clean.
  rewrite !lookup_insert_ne; [reflexivity|..];
    intros <-; apply H; simpl; tauto.
Qed.

Lemma load_row_lookup_in r c :
  In c loader_cols -> cleaned r !! c = Some (at_col c (cleaned r)).
Proof.
  intros H. unfold at_col.
  assert (is_Some (cleaned r !! c)) as [v Hv]; [|now rewrite Hv].
  unfold load_row, coerce, clean. simpl in H.
  destruct H as [<-|[<-|[<-|[<-|[<-|[<-|[]]]]]]];
    repeat first [ rewrite lookup_insert_eq; eauto
                 | rewrite lookup_insert_ne by discriminate ].
Qed.

Lemma clean_cell_idem c :
  str_strip1 (astype_str1 repr_float nan_as_text (str_strip1 (astype_str1 repr_float nan_as_text c))) =
  str_strip1 (astype_str1 repr_float nan_as_text c).
Proof.
  destruct c as [s|x|]; simpl;
    try (f_equal; apply strip_id, strip_trimmed).
  destruct nan_as_text; simpl; [|reflexivity].
  f_equal; apply strip_id, strip_trimmed.
Qed.

Lemma to_numeric1_idem c :
  to_numeric1 parse_float (to_numeric1 parse_float c) = to_numeric1 parse_float c.
Proof.
  destruct c as [s|x|]; simpl; [|reflexivity..].
  destruct (parse_float s); reflexivity.
Qed.

Lemma load_row_idem r : cleaned (cleaned r) = cleaned r.
Proof.
  apply map_eq. intros c.
  destruct (in_dec string_dec c loader_cols) as [Hc|Hc].
  - rewrite !load_row_lookup_in by assumption. f_equal.
    simpl in Hc. destruct Hc as [<-|[<-|Hc]].
    + rewrite !load_row_department. apply clean_cell_idem.
    + rewrite !load_row_gender. apply clean_cell_idem.
    + assert (In c numeric_cols) as Hn by (simpl; tauto).
      rewrite !load_row_numeric by assumption. apply to_numeric1_idem.
  - now rewrite !load_row_lookup_other by assumption.
Qed.

(** X2: the loader keeps the header and the number of rows, and in every
    row it leaves each column other than department, gender,
    performance_score, salary, average_work_hours and age exactly as
    read. *)
Theorem load_data_keeps_shape csv df :
  load2 csv = Ok df ->
  columns df = columns csv /\
  len df = len csv /\
  forall i r, rows csv !! i = Some r ->
    exists r', rows df !! i = Some r' /\
      forall c, ~ In c loader_cols -> r' !! c = r !! c.
Proof.
  intros H. apply load_data_rows in H as (_ & Hcols & Hrows).
  split; [assumption|]. split; [unfold len; now rewrite Hrows, length_map|].
  intros i r Hi. exists (cleaned r).
  split; [now rewrite Hrows, lookup_map, Hi|].
  intros c Hc. now apply load_row_lookup_other.
Qed.

(** X3: loading a table that the loader produced changes nothing. *)
Theorem load_data_idempotent csv df :
  load_data parse_float repr_float nan_as_text csv = Ok df ->
  load_data parse_float repr_float nan_as_text df = Ok df.
Proof.
  intros H. destruct (load_data_rows _ _ _ _ _ H) as (Hall & Hcols & Hrows).
  destruct (load_data_total parse_float repr_float nan_as_text df) as [df2 H2].
  { intros c Hc. rewrite Hcols. auto. }
  rewrite H2. f_equal.
  apply load_data_rows in H2 as (_ & Hcols2 & Hrows2).
  destruct df2 as [cols2 rows2], df as [cols1 rows1]. simpl in *. subst.
  f_equal. rewrite map_map. apply map_ext. intros r. apply load_row_idem.
Qed.

(** X4: a gender or department string is changed by the loader only by
    taking whitespace off its two ends, and a string with no whitespace
    at either end is kept as it is.  Whitespace is all of [str.isspace],
    the no-break space and the other Unicode spaces included. *)
Theorem load_data_strips_only csv df :
  load_data parse_float repr_float nan_as_text csv = Ok df ->
  forall i r c s, rows csv !! i = Some r ->
    c = "gender" \/ c = "department" -> at_col c r = CStr s ->
    exists r' pre suf,
      rows df !! i = Some r' /\
      at_col c r' = CStr (strip s) /\
      s = pre ++ strip s ++ suf /\
      all_space pre = true /\ all_space suf = true /\
      (trimmed s -> at_col c r' = CStr s).
Proof.
  intros H i r c s Hi Hc Hs.
  apply load_data_rows in H as (_ & _ & Hrows).
  destruct (strip_split s) as (pre & suf & Hsplit & Hpre & Hsuf).
  exists (cleaned r), pre, suf.
  split; [now rewrite Hrows, lookup_map, Hi|].
  assert (at_col c (cleaned r) = CStr (strip s)) as Hcell.
  { destruct Hc as [-> | ->];
      [rewrite load_row_gender | rewrite load_row_department];
      now rewrite Hs. }
  split; [assumption|]. split; [assumption|].
  split; [assumption|]. split; [assumption|].
  intros Ht. now rewrite Hcell, strip_id.
Qed.

End LoaderMore.

(** ** The options of the two multiselects *)

Lemma count_le_one_strict l :
  StronglySorted (fun a b => cell_leb a b = true) l ->
  (forall k, (count_eq k l <= 1)%nat) ->
  StronglySorted (fun a b => cell_ltb a b = true) l.
Proof.
  intros Hs. induction Hs as [|x l Hs IH Hx]; intros Hc; constructor.
  - apply IH. intros k. specialize (Hc k). rewrite count_eq_cons in Hc. lia.
  - apply List.Forall_forall. intros y Hy. unfold cell_ltb.
    rewrite List.Forall_forall in Hx. rewrite (Hx y Hy). simpl.
    apply negb_true_iff. destruct (cell_eqb x y) eqn:E; [|reflexivity].
    specialize (Hc x). rewrite count_eq_cons, cell_eqb_refl in Hc.
    assert (0 < count_eq x l)%nat.
    { apply cell_in_eqb_count, cell_in_spec. eauto. }
    lia.
Qed.

Lemma cell_in_count k l :
  cell_in k l = match count_eq k l with O => false | S _ => true end.
Proof.
  destruct (count_eq k l) eqn:E.
  - destruct (cell_in k l) eqn:Hin; [|reflexivity].
    apply cell_in_eqb_count in Hin. lia.
  - apply cell_in_eqb_count. lia.
Qed.

(** X5: the options offered by a multiselect are in strictly ascending
    order (so no option is offered twice), none is NaN, and a value is
    among them exactly when it is a non-missing value of the column. *)
Theorem options_strictly_ascending s opts :
  options s = Ok opts ->
  StronglySorted (fun a b => cell_ltb a b = true) opts /\
  ~ In CNaN opts /\
  forall k, cell_in k opts = cell_in k (dropna s).
Proof.
  intros H. pose proof (options_no_nan _ _ H) as Hnan.
  unfold options in H. pose proof (py_sorted_sorted _ _ H) as Hs.
  unfold py_sorted in H. destruct (homogeneous _); [|discriminate].
  injection H as <-.
  assert (forall k, count_eq k (sort_by cell_leb (unique (dropna s))) =
                    if cell_in k (dropna s) then 1%nat else 0%nat) as Hc.
  { intros k. unfold count_eq. rewrite sort_by_count. apply count_eq_unique. }
  split; [|split; [assumption|]].
  - apply count_le_one_strict; [assumption|].
    intros k. rewrite Hc. destruct (cell_in _ _); lia.
  - intros k. rewrite cell_in_count, Hc. now destruct (cell_in k (dropna s)).
Qed.

(** ** The bounds of the slider *)

Lemma trunc_close x :
  (inject_Z (trunc x) - 1 < x)%Q /\ (x < inject_Z (trunc x) + 1)%Q.
Proof.
  destruct x as [a b]. unfold trunc. simpl.
  pose proof (Z.quot_rem' a (Zpos b)) as Hqr.
  pose proof (Z.rem_bound_abs a (Zpos b) ltac:(discriminate)) as Hr.
  set (q := (a ÷ Zpos b)%Z) in *. set (r := Z.rem a (Zpos b)) in *.
  unfold Qlt, Qminus, Qplus, Qopp, inject_Z. simpl.
  rewrite !Z.mul_1_r. split; lia.
Qed.

Lemma trunc_mono x y : (x <= y)%Q -> (trunc x <= trunc y)%Z.
Proof.
  destruct x as [a b], y as [c d]. unfold Qle, trunc. simpl. intros H.
  rewrite <- (Z.quot_mul_cancel_r a (Zpos b) (Zpos d)) by discriminate.
  rewrite <- (Z.quot_mul_cancel_r c (Zpos d) (Zpos b)) by discriminate.
  rewrite (Z.mul_comm (Zpos d) (Zpos b)).
  apply Z.quot_le_mono; [reflexivity | assumption].
Qed.

(** X6: when both bounds of the slider exist, the lower one is at most
    the upper one, and every score of the table lies strictly between
    the lower bound minus one and the upper bound plus one: truncation
    can leave a score outside the range, by less than one. *)
Theorem slider_bounds df lo hi :
  min_score df = Ok lo -> max_score df = Ok hi ->
  (lo <= hi)%Z /\
  forall r x, In r (rows df) -> at_col "performance_score" r = CNum x ->
    (inject_Z lo - 1 < x)%Q /\ (x < inject_Z hi + 1)%Q.
Proof.
  unfold min_score, max_score. intros Hlo Hhi.
  apply bind_Ok in Hlo as (p & Hp & Hlo). apply getcol_inv in Hp as [_ ->].
  apply bind_Ok in Hhi as (p & Hp & Hhi). apply getcol_inv in Hp as [_ ->].
  set (s := map (at_col "performance_score") (rows df)) in *.
  assert (existsb is_str s = false) as Hs.
  { unfold int_nanmin in Hlo. destruct (existsb is_str s); [discriminate | reflexivity]. }
  assert (exists x0, In (CNum x0) s) as [x0 Hx0].
  { unfold int_nanmin in Hlo. rewrite Hs in Hlo.
    destruct (nums s) as [|z zs] eqn:E; [discriminate|].
    exists z. apply nums_In. rewrite E. now left. }
  destruct (int_bounds s x0 Hs Hx0) as (mn & mx & Hmin & Hmax & Hmn & Hmx & Hbr).
  rewrite Hmin in Hlo. rewrite Hmax in Hhi.
  injection Hlo as <-. injection Hhi as <-.
  split.
  - apply trunc_mono. apply (Hbr mx Hmx).
  - intros r x Hr Hx.
    assert (In (CNum x) s) as Hin by (rewrite <- Hx; now apply in_map).
    destruct (Hbr x Hin) as [H1 H2].
    destruct (trunc_close mn) as [Hc1 _]. destruct (trunc_close mx) as [_ Hc2].
    split.
    + apply (Qlt_le_trans _ mn); assumption.
    + apply (Qle_lt_trans _ mx); assumption.
Qed.

(** ** The filter as an operation on tables *)

Lemma df_f_view df w view :
  df_f df w = Ok view ->
  view = mkDF (columns df) (List.filter (keeps w) (rows df)).
Proof.
  intros H. destruct (df_f_inv _ _ _ H) as (Hg & Hp & Hm & Hn).
  rewrite df_f_rows in H by assumption. now injection H as <-.
Qed.

Lemma numeric_column_filter df c f :
  numeric_column df c ->
  numeric_column (mkDF (columns df) (List.filter f (rows df))) c.
Proof.
  unfold numeric_column. simpl. apply existsb_false_incl.
  intros x Hx. apply in_map_iff in Hx as (r & <- & Hr).
  apply filter_In in Hr as [Hr _]. now apply in_map.
Qed.

Lemma filter_sublist_impl {A} (f g : A -> bool) l :
  (forall x, In x l -> f x = true -> g x = true) ->
  List.filter f l `sublist_of` List.filter g l.
Proof.
  induction l as [|x l IH]; intros H; simpl; [constructor|].
  assert (List.filter f l `sublist_of` List.filter g l) as IH'.
  { apply IH. intros y Hy. apply H. now right. }
  destruct (f x) eqn:Ef.
  - rewrite (H x) by (auto; now left). now constructor.
  - destruct (g x); [now constructor | assumption].
Qed.

Lemma filter_sublist {A} (f : A -> bool) l : List.filter f l `sublist_of` l.
Proof.
  induction l as [|x l IH]; simpl; [constructor|].
  destruct (f x); now constructor.
Qed.

Lemma filter_filter {A} (f g : A -> bool) l :
  List.filter g (List.filter f l) = List.filter (fun x => f x && g x) l.
Proof.
  induction l as [|x l IH]; simpl; [reflexivity|].
  destruct (f x); simpl; [destruct (g x)|]; now rewrite IH.
Qed.

Lemma between1_widen lo hi lo' hi' c :
  (lo' <= lo)%Z -> (hi <= hi')%Z ->
  between1 lo hi c = true -> between1 lo' hi' c = true.
Proof.
  intros Hlo Hhi. destruct c as [s|x|]; simpl; try discriminate.
  rewrite !andb_true_iff, !Qle_bool_iff. intros [H1 H2]. split.
  - apply Qle_trans with (y := inject_Z lo); [now rewrite <- Zle_Qle | assumption].
  - apply Qle_trans with (y := inject_Z hi); [assumption | now rewrite <- Zle_Qle].
Qed.

Lemma keeps_narrower w w' r :
  narrower w w' -> keeps w r = true -> keeps w' r = true.
Proof.
  intros (Hg & Hlo & Hhi & Hm). unfold keeps.
  rewrite !andb_true_iff. intros [[H1 H2] H3].
  repeat split; auto. eapply between1_widen; eassumption.
Qed.

(** X7: the filtered view holds rows of the table in the table's order,
    so it never has more rows than the table; and selecting more (more
    genders, a wider range, more marital statuses) only adds rows: the
    narrower view is contained, in order, in the wider one. *)
Theorem view_grows_with_selection df w w' view view' :
  df_f df w = Ok view -> df_f df w' = Ok view' -> narrower w w' ->
  rows view `sublist_of` rows view' /\
  rows view' `sublist_of` rows df /\
  (len view <= len view')%nat /\ (len view' <= len df)%nat.
Proof.
  intros Hv Hv' Hn.
  apply df_f_view in Hv. apply df_f_view in Hv'. subst. simpl.
  assert (List.filter (keeps w) (rows df) `sublist_of` List.filter (keeps w') (rows df)) as H1.
  { apply filter_sublist_impl. intros r _. now apply keeps_narrower. }
  pose proof (filter_sublist (keeps w') (rows df)) as H2.
  split; [assumption|]. split; [assumption|].
  unfold len. simpl. split; now apply sublist_length.
Qed.

(** X8: a view can be filtered again: filtering the view of [w1] with
    [w2] keeps the rows of the table that pass both filters, the order of
    the two filters does not matter, and filtering a view with its own
    widget values gives the view back. *)
Theorem view_refilter df w1 w2 v1 :
  df_f df w1 = Ok v1 ->
  exists v12,
    df_f v1 w2 = Ok v12 /\
    columns v12 = columns df /\
    rows v12 = List.filter (fun r => keeps w1 r && keeps w2 r) (rows df) /\
    (forall v2, df_f df w2 = Ok v2 -> df_f v2 w1 = Ok v12) /\
    df_f v1 w1 = Ok v1.
Proof.
  intros H1. destruct (df_f_inv _ _ _ H1) as (Hg & Hp & Hm & Hn).
  apply df_f_view in H1. subst v1.
  assert (forall f w,
            df_f (mkDF (columns df) (List.filter f (rows df))) w =
            Ok (mkDF (columns df) (List.filter (fun r => f r && keeps w r) (rows df))))
    as Hre.
  { intros f w. rewrite df_f_rows; simpl; try assumption.
    - now rewrite filter_filter.
    - now apply numeric_column_filter. }
  eexists. split; [apply Hre|]. simpl.
  split; [reflexivity|]. split; [reflexivity|]. split.
  - intros v2 H2. apply df_f_view in H2. subst v2. rewrite Hre. do 2 f_equal.
    apply filter_ext. intros r. apply andb_comm.
  - rewrite Hre. do 2 f_equal. apply filter_ext. intros r. now destruct (keeps w1 r).
Qed.

(** X9: with no gender selected, or no marital status selected, or a
    range whose upper end is below its lower end, the view has no row. *)
Theorem nothing_selected_empty_view df w view :
  gender_sel w = [] \/ marital_sel w = [] \/
  (snd (score_range w) < fst (score_range w))%Z ->
  df_f df w = Ok view -> rows view = [].
Proof.
  intros Hsel Hv. apply df_f_view in Hv. subst view. simpl.
  assert (forall r, keeps w r = false) as Hk.
  { intros r. unfold keeps. destruct Hsel as [Hs|[Hs|Hs]].
    - now rewrite Hs.
    - rewrite Hs. simpl. now rewrite andb_false_r.
    - destruct (between1 _ _ _) eqn:E; [|now rewrite andb_false_r].
      apply between1_in_range in E as (x & _ & Hlo & Hhi).
      pose proof (Qle_trans _ _ _ Hlo Hhi) as Hle.
      rewrite <- Zle_Qle in Hle. lia. }
  induction (rows df) as [|r l IH]; simpl; [reflexivity|]. now rewrite Hk.
Qed.

(** ** What the metrics and charts show of a filtered view *)

Lemma view_row_kept df w view r :
  df_f df w = Ok view -> In r (rows view) ->
  In r (rows df) /\ keeps w r = true.
Proof.
  intros Hv Hr. apply df_f_view in Hv. subst view. simpl in Hr.
  now apply filter_In in Hr.
Qed.

(** In a view every score is a number of the selected range. *)
Lemma view_scores df w view c :
  df_f df w = Ok view ->
  In c (map (at_col "performance_score") (rows view)) ->
  exists x, c = CNum x /\
    (inject_Z (fst (score_range w)) <= x)%Q /\
    (x <= inject_Z (snd (score_range w)))%Q.
Proof.
  intros Hv Hc. apply in_map_iff in Hc as (r & <- & Hr).
  destruct (view_row_kept _ _ _ _ Hv Hr) as [_ Hk].
  unfold keeps in Hk. apply andb_true_iff in Hk as [Hk _].
  apply andb_true_iff in Hk as [_ Hk]. now apply between1_in_range.
Qed.

Lemma nums_all_num s :
  (forall c, In c s -> exists x, c = CNum x) ->
  map CNum (nums s) = s /\ existsb is_str s = false /\ dropna s = s.
Proof.
  induction s as [|c s IH]; intros H; simpl; [auto|].
  destruct (H c) as [x ->]; [now left|]. simpl.
  destruct IH as (IH1 & IH2 & IH3); [intros d Hd; apply H; now right|].
  unfold dropna in *. simpl. now rewrite IH1, IH2, IH3.
Qed.





(** X11: the score distribution of a view is always computed; its bars
    are in ascending order of score, every bar is a score of the selected
    range and counts at least one employee, the height of a bar is the
    number of rows of the view with that score, and the heights add up to
    the number of rows of the view. *)
Theorem score_distribution_counts_view df w view :
  df_f df w = Ok view ->
  exists counts,
    (getcol view "performance_score" ≫=
       fun perf => sort_index (value_counts perf)) = Ok counts /\
    StronglySorted (fun a b => cell_leb a b = true) (map fst counts) /\
    (forall k n, In (k, n) counts ->
       (1 <= n)%nat /\
       n = count_eq k (map (at_col "performance_score") (rows view)) /\
       between1 (fst (score_range w)) (snd (score_range w)) k = true) /\
    total counts = len view.
Proof.
  intros Hv.
  assert ("performance_score" ∈ columns view) as Hpv.
  { destruct (df_f_inv _ _ _ Hv) as (_ & Hp & _ & _).
    apply df_f_view in Hv. now subst view. }
  rewrite getcol_Ok by assumption. cbn [mbind result_bind].
  set (s := map (at_col "performance_score") (rows view)).
  assert (forall c, In c s -> exists x, c = CNum x) as Hnum.
  { intros c Hc. destruct (view_scores _ _ _ _ Hv Hc) as (x & -> & _). eauto. }
  destruct (nums_all_num s Hnum) as (_ & _ & Hdrop).
  assert (forall k n, In (k, n) (value_counts s) -> In k s /\ n = count_eq k s) as Hin.
  { intros k n H. apply value_counts_In in H as [Hk ->]. rewrite Hdrop in *.
    split; [now apply unique_In | reflexivity]. }
  assert (homogeneous (map fst (value_counts s)) = true) as Hhom.
  { apply homogeneous_num. intros c Hc. apply in_map_iff in Hc as ([k n] & <- & Hkn).
    apply Hin in Hkn as [Hk _]. destruct (Hnum _ Hk) as [x ->]. reflexivity. }
  unfold sort_index. rewrite Hhom. eexists. split; [reflexivity|].
  split; [|split].
  - rewrite sort_by_map_fst.
    apply (sort_by_sorted cell_leb (same_kind (map fst (value_counts s)))).
    + apply cell_leb_total.
    + intros x y z _ _ _. apply cell_leb_trans.
    + now apply homogeneous_same_kind.
  - intros k n H. apply sort_by_In, Hin in H as [Hk ->].
    split; [|split; [reflexivity|]].
    + apply cell_in_eqb_count. now apply cell_in_self.
    + destruct (view_scores _ _ _ _ Hv Hk) as (x & -> & H1 & H2).
      apply between1_in_range. exists x. auto.
  - rewrite total_sort_by, total_value_counts, Hdrop. unfold len, s.
    apply length_map.
Qed.

Lemma groupedMean_keys view g v res k :
  groupedMean view g v = Ok res -> In k (map fst res) ->
  exists r, In r (rows view) /\ at_col g r = k.
Proof.
  unfold groupedMean. intros H Hk.
  apply bind_Ok in H as (keys & Hkeys & H). apply getcol_inv in Hkeys as [_ ->].
  apply bind_Ok in H as (vals & _ & H).
  apply bind_Ok in H as (by_key & Hby & H).
  apply groupby_mean_spec in Hby as [Hks _].
  unfold sort_index in H. destruct (homogeneous _); [|discriminate].
  injection H as <-. rewrite sort_by_map_fst in Hk. apply sort_by_In in Hk.
  unfold py_sorted in Hks. destruct (homogeneous _); [|discriminate].
  injection Hks as Hks. rewrite <- Hks in Hk.
  apply sort_by_In, unique_In, dropna_In in Hk as [Hk _].
  apply in_map_iff in Hk as (r & Hr & Hin). eauto.
Qed.

(** X12: the two grouped charts show only what was selected: every bar
    of the hours-by-gender chart is a selected gender, and every point of
    the hours-by-score chart is a score of the selected range. *)
Theorem grouped_charts_show_selected df w view res :
  df_f df w = Ok view ->
  (groupedMean view "gender" "average_work_hours" = Ok res ->
     forall k, In k (map fst res) -> cell_in k (gender_sel w) = true) /\
  (groupedMean view "performance_score" "average_work_hours" = Ok res ->
     forall k, In k (map fst res) ->
       between1 (fst (score_range w)) (snd (score_range w)) k = true).
Proof.
  intros Hv. split; intros H k Hk;
    destruct (groupedMean_keys _ _ _ _ _ H Hk) as (r & Hr & <-);
    destruct (view_row_kept _ _ _ _ Hv Hr) as [_ Hkeep];
    unfold keeps in Hkeep; apply andb_true_iff in Hkeep as [Hkeep _];
    apply andb_true_iff in Hkeep as [H1 H2]; assumption.
Qed.

Lemma count_eq_le_length k s : (count_eq k s <= length s)%nat.
Proof.
  unfold count_eq. induction s as [|c s IH]; simpl; [lia|].
  destruct (cell_eqb k c); simpl; lia.
Qed.

Lemma total_le_head (vc : list (cell * nat)) n :
  Forall (fun q => (snd q <= n)%nat) vc -> (total vc <= n * length vc)%nat.
Proof.
  induction 1 as [|q vc Hq _ IH]; simpl; [lia|].
  change (foldr (fun p acc => (snd p + acc)%nat) 0%nat vc) with (total vc). lia.
Qed.

(** X13: the share reported in the conclusions is the float64
    [n / N * 100] of a count [n] and the number [N] of rows that have a
    label, where [n] is the number of rows that hold the reported label;
    [n] is at least 1 and at most [N], and it is at least the even share:
    [n] times the number of categories reaches [N]. *)
Theorem top_share_bounds view c pcts k p :
  valueCounts_pct view c = Ok pcts -> first_entry pcts = Ok (k, p) ->
  exists sel,
    rows_with c k (rows view) sel /\
    p = pct (length sel) (length (present c (rows view))) /\
    (1 <= length sel)%nat /\
    (length sel <= length (present c (rows view)))%nat /\
    (length (present c (rows view)) <= length sel * length pcts)%nat.
Proof.
  unfold valueCounts_pct. intros H Hfst.
  apply bind_Ok in H as (s & Hs & H). injection H as <-.
  apply getcol_inv in Hs as [_ ->].
  set (s := map (at_col c) (rows view)) in *.
  assert (length (dropna s) = length (present c (rows view))) as HN.
  { unfold s. now rewrite dropna_map_present, length_map. }
  rewrite value_counts_pct_eq in *.
  destruct (value_counts s) as [|[k0 n] rest] eqn:Evc; [discriminate|].
  simpl in Hfst. injection Hfst as <- <-.
  destruct (value_counts_head _ _ _ _ Evc) as [Hn Hmax].
  assert (In (k0, n) (value_counts s)) as Hin by (rewrite Evc; now left).
  assert (k0 <> CNaN) as Hk0.
  { apply (value_counts_key s). apply in_map_iff. exists (k0, n). auto. }
  apply value_counts_In in Hin as [Hk _].
  assert (1 <= n)%nat as Hn1.
  { rewrite Hn. apply cell_in_eqb_count, cell_in_self. now apply unique_In. }
  assert (n <= length (dropna s))%nat as HnN.
  { rewrite Hn. apply count_eq_le_length. }
  assert (length (dropna s) <= n * length ((k0, n) :: rest))%nat as Hsum.
  { rewrite <- total_value_counts, Evc. apply total_le_head.
    pose proof (value_counts_sorted s) as Hsrt. rewrite Evc in Hsrt.
    apply StronglySorted_inv in Hsrt as [_ Hsrt].
    constructor; [simpl; lia | exact Hsrt]. }
  assert (n = length (List.filter (fun r => cell_eqb k0 (at_col c r)) (rows view)))
    as Hlen.
  { rewrite Hn. unfold s. now apply count_eq_rows. }
  exists (List.filter (fun r => cell_eqb k0 (at_col c r)) (rows view)).
  rewrite <- Hlen, <- HN, length_map.
  split; [now apply rows_with_filter|]. auto.
Qed.

(** ** The detail table *)


Lemma getcols_inv df cs shown :
  getcols df cs = Ok shown -> forall c, In c cs -> c ∈ columns df.
Proof.
  unfold getcols. destruct (List.filter _ cs) as [|c0 l] eqn:E; [|discriminate].
  intros _ c Hc. destruct (decide (c ∈ columns df)) as [|Hn]; [assumption|].
  assert (In c (List.filter (fun c => negb (bool_decide (c ∈ columns df))) cs)) as Hin.
  { apply filter_In. split; [assumption|].
    now apply negb_true_iff, bool_decide_eq_false. }
  rewrite E in Hin. destruct Hin.
Qed.

(** ** How a pass ends *)

Lemma bind_lift_finishes {A B} (r : result A) (f : A -> script B) b :
  snd (lift r ≫= f) = Done b -> exists a, r = Ok a /\ snd (f a) = Done b.
Proof.
  destruct r as [a|e]; [|discriminate]. rewrite lift_Ok_bind. eauto.
Qed.

Lemma bind_emit_finishes {B} (e : event) (f : unit -> script B) b :
  snd (emit e ≫= f) = Done b -> snd (f tt) = Done b.
Proof. now rewrite emit_bind. Qed.

Lemma never_stops_bind {A B} (m : script A) (f : A -> script B) :
  never_stops m -> (forall a, never_stops (f a)) -> never_stops (m ≫= f).
Proof.
  unfold never_stops. destruct m as [log [a| |e]]; simpl; intros Hm Hf.
  - specialize (Hf a). now destruct (f a).
  - congruence.
  - discriminate.
Qed.

Lemma never_stops_lift {A} (r : result A) : never_stops (lift r).
Proof. destruct r; discriminate. Qed.

Lemma never_stops_emit e : never_stops (emit e).
Proof. discriminate. Qed.

Lemma render_never_stops view : never_stops (render view).
Proof.
  unfold render.
  repeat first [ apply never_stops_lift | apply never_stops_emit
               | apply never_stops_bind; [|intros ?] ].
Qed.

Lemma render_head view :
  exists rest, fst (render view) = MetricCount (len view) :: rest /\
               Forall body_event rest.
Proof.
  unfold render. rewrite emit_bind. cbn [fst]. eexists. split; [reflexivity|].
  match goal with |- Forall _ (fst ?m) => change (shows_only body_event m) end.
  repeat first
    [ apply shows_only_lift
    | apply shows_only_emit; exact I
    | apply shows_only_bind; [|intros ?] ].
Qed.




Ltac done_step H :=
  first [ apply bind_emit_finishes in H
        | let a := fresh "a" in
          let E := fresh "E" in
          apply bind_lift_finishes in H as (a & E & H) ].

Section PassFacts.

Variable parse_float : text -> option Q.
Variable repr_float : Q -> text.
Variable nan_as_text : bool.

Abbreviation load3 := (load_data parse_float repr_float nan_as_text).
Abbreviation pass := (app parse_float repr_float nan_as_text).

Lemma view_len_le df w view : df_f df w = Ok view -> (len view <= len df)%nat.
Proof.
  intros H. apply df_f_view in H. subst view. unfold len. simpl.
  apply List.filter_length_le.
Qed.

(** X15: a pass has one of four shapes.  It ends by an exception having
    shown nothing; or it shows the schema error for marital_status alone
    and stops; or it shows a count of 0 and the warning and stops; or it
    shows the count of a view that is not empty, at most the size of the
    table, then the head-count metric with the same number, then only
    means, charts, the table, the export and the conclusions, and does
    not end by [st.stop()].  So the warning and the metrics never appear
    in the same pass, and no metric is shown for an empty view. *)
Theorem pass_shapes csv w :
  (exists e, pass csv w = ([], Crashed e)) \/
  pass csv w = ([StError ["marital_status"]], Stopped) \/
  (exists m, pass csv w = ([SidebarCount 0 m; StWarning], Stopped)) \/
  (exists n m rest o,
     pass csv w = (SidebarCount n m :: MetricCount n :: rest, o) /\
     (1 <= n)%nat /\ (n <= m)%nat /\ o <> Stopped /\ Forall body_event rest).
Proof.
  destruct (load3 csv) as [df|e] eqn:El.
  2:{ left. exists e. now apply app_load_error. }
  destruct (missing_cols df) as [|c l] eqn:Em.
  2:{ right; left.
      assert (missing_cols df <> []) as Hne by (rewrite Em; discriminate).
      rewrite (app_schema_error _ _ _ _ _ _ El Hne).
      rewrite (loaded_missing_cols _ _ _ _ _ El) in *.
      destruct (decide _); [discriminate | reflexivity]. }
  rewrite (app_validated _ _ _ _ _ _ El Em). unfold dashboard.
  destruct (gender_options df) as [go|e]; [rewrite lift_Ok_bind | left; now exists e].
  destruct (min_score df) as [lo|e]; [rewrite lift_Ok_bind | left; now exists e].
  destruct (max_score df) as [hi|e]; [rewrite lift_Ok_bind | left; now exists e].
  destruct (slider lo hi) as [[]|e]; [rewrite lift_Ok_bind | left; now exists e].
  destruct (marital_options df) as [mo|e]; [rewrite lift_Ok_bind | left; now exists e].
  destruct (df_f df w) as [view|e] eqn:Ev; [rewrite lift_Ok_bind | left; now exists e].
  rewrite emit_bind. right; right.
  destruct (len view =? 0)%nat eqn:E0.
  - left. apply Nat.eqb_eq in E0. rewrite E0. exists (len df). reflexivity.
  - right. apply Nat.eqb_neq in E0.
    rewrite (ret_bind tt (fun _ => render view)).
    destruct (render_head view) as (rest & Hrest & Hbody).
    exists (len view), (len df), rest, (snd (render view)).
    rewrite Hrest. split; [reflexivity|].
    split; [lia|]. split; [exact (view_len_le _ _ _ Ev)|].
    split; [apply render_never_stops | assumption].
Qed.

(** X16: when the table has no score at all (every score is missing, or
    the CSV has a header and no row) the pass ends with [ValueError]
    before anything is shown: the slider bounds cannot be computed, and
    the empty-view warning is never reached. *)
Theorem pass_without_scores_crashes csv w df :
  load3 csv = Ok df -> "marital_status" ∈ columns csv ->
  (forall r, In r (rows df) -> at_col "performance_score" r = CNaN) ->
  min_score df = Raise ValueError /\
  pass csv w = ([], Crashed ValueError).
Proof.
  intros Hl Hm Hnan.
  assert (min_score df = Raise ValueError) as Hmin.
  { unfold min_score.
    rewrite getcol_Ok by (apply (loaded_columns _ _ _ _ _ _ Hl); simpl; tauto).
    cbn [mbind result_bind]. unfold int_nanmin.
    rewrite (loaded_score_no_str _ _ _ _ _ Hl).
    assert (nums (map (at_col "performance_score") (rows df)) = []) as ->; [|reflexivity].
    induction (rows df) as [|r l IH]; simpl; [reflexivity|].
    rewrite (Hnan r) by now left. apply IH. intros r' Hr'. apply Hnan. now right. }
  split; [assumption|].
  assert (missing_cols df = []) as Hmiss.
  { rewrite (loaded_missing_cols _ _ _ _ _ Hl). now destruct (decide _). }
  rewrite (app_validated _ _ _ _ _ _ Hl Hmiss). unfold dashboard.
  destruct (loaded_gender_options _ _ _ _ _ Hl) as [go ->].
  now rewrite lift_Ok_bind, Hmin.
Qed.

(** X17: the validation does not check everything the script reads: a
    pass runs to its end only if the CSV has all fourteen columns the
    script uses. *)
Theorem finished_pass_had_all_columns csv w :
  snd (pass csv w) = Done tt ->
  forall c, In c used_cols -> c ∈ columns csv.
Proof.
  unfold app. intros H.
  apply bind_lift_finishes in H as (df & Hl & H).
  destruct (load_data_rows _ _ _ _ _ Hl) as (Hall & Hcols & _).
  unfold validate in H. destruct (missing_cols df) eqn:Em; [|discriminate].
  rewrite (ret_bind tt (fun _ => dashboard df w)) in H. unfold dashboard in H.
  apply bind_lift_finishes in H as (go & _ & H).
  apply bind_lift_finishes in H as (lo & _ & H).
  apply bind_lift_finishes in H as (hi & _ & H).
  apply bind_lift_finishes in H as (sl & _ & H).
  apply bind_lift_finishes in H as (mo & _ & H).
  apply bind_lift_finishes in H as (view & Hv & H).
  apply bind_emit_finishes in H.
  destruct (len view =? 0)%nat; [discriminate|].
  rewrite (ret_bind tt (fun _ => render view)) in H. unfold render in H.
  destruct (df_f_inv _ _ _ Hv) as (_ & _ & Hmar & _).
  apply df_f_view in Hv.
  assert (columns view = columns csv) as Hvc by (subst view; exact Hcols).
  rewrite Hcols in Hmar. clear Hv.
  repeat done_step H.
  assert ("satisfaction_level" ∈ columns csv) as Hsat.
  { apply bind_Ok in E0 as (x & Hx & _). apply getcol_inv in Hx as [Hx _].
    now rewrite <- Hvc. }
  assert ("absences" ∈ columns csv) as Habs.
  { apply bind_Ok in E1 as (x & Hx & _). apply getcol_inv in Hx as [Hx _].
    now rewrite <- Hvc. }
  assert ("performance_score_desc" ∈ columns csv) as Hdesc.
  { apply bind_Ok in E8 as (x & Hx & _). unfold valueCounts_pct in Hx.
    apply bind_Ok in Hx as (y & Hy & _). apply getcol_inv in Hy as [Hy _].
    now rewrite <- Hvc. }
  pose proof (getcols_inv _ _ _ E7) as Htab. rewrite Hvc in Htab.
  intros c Hc. simpl in Hc.
  repeat (destruct Hc as [<-|Hc];
          [first [ assumption
                 | apply Hall; simpl; tauto
                 | apply Htab; simpl; tauto ]|]).
  destruct Hc.
Qed.


End PassFacts.

(** ** More on the loader and the options *)

Lemma coerce_cols_first_missing pf cols : forall df e,
  coerce_cols pf cols df = Raise e ->
  exists l1 c l2,
    cols = l1 ++ c :: l2 /\ e = KeyError c /\ (c ∉ columns df) /\
    forall c', In c' l1 -> c' ∈ columns df.
Proof.
  induction cols as [|c cols IH]; intros df e H; simpl in H; [discriminate|].
  destruct (decide (c ∈ columns df)) as [Hc|Hc].
  - rewrite getcol_Ok in H by assumption. cbn [mbind result_bind] in H.
    unfold to_numeric in H. rewrite (setcol_map df c (to_numeric1 pf)) in H by assumption.
    apply IH in H as (l1 & c0 & l2 & -> & -> & Hn & Hl1). simpl in *.
    exists (c :: l1), c0, l2. repeat split; auto.
    intros c' [<-|Hc']; auto.
  - rewrite getcol_Raise in H by assumption. injection H as <-.
    exists [], c, cols. repeat split; auto. intros c' [].
Qed.

Section LoaderOrder.

Variable parse_float : text -> option Q.
Variable repr_float : Q -> text.
Variable nan_as_text : bool.

(** X19: when the loader fails, the [KeyError] names the first column, in
    the order department, gender, performance_score, salary,
    average_work_hours, age, that the CSV lacks. *)
Theorem load_data_first_missing csv e :
  load_data parse_float repr_float nan_as_text csv = Raise e ->
  exists l1 c l2,
    loader_cols = l1 ++ c :: l2 /\ e = KeyError c /\ (c ∉ columns csv) /\
    forall c', In c' l1 -> c' ∈ columns csv.
Proof.
  unfold load_data. intros H.
  destruct (decide ("department" ∈ columns csv)) as [Hd|Hd].
  2:{ rewrite getcol_Raise in H by assumption. injection H as <-.
      exists [], "department", (tl loader_cols). repeat split; auto. intros c' []. }
  rewrite getcol_Ok in H by assumption. cbn [mbind result_bind] in H.
  rewrite clean_step in H by assumption.
  destruct (decide ("gender" ∈ columns csv)) as [Hg|Hg].
  2:{ rewrite getcol_Raise in H by assumption. injection H as <-.
      exists ["department"], "gender", numeric_cols. repeat split; auto.
      intros c' [<-|[]]. assumption. }
  rewrite getcol_Ok in H by assumption. cbn [mbind result_bind] in H.
  rewrite clean_step in H by assumption.
  apply coerce_cols_first_missing in H as (l1 & c & l2 & Hcols & -> & Hn & Hl1).
  simpl in Hn, Hl1.
  exists ("department" :: "gender" :: l1), c, l2.
  split; [unfold loader_cols; simpl; now rewrite <- Hcols|].
  split; [reflexivity|]. split; [assumption|].
  intros c' [<-|[<-|Hc']]; auto.
Qed.

(** X20: in a loaded table every row that has a gender has it among the
    gender options, and every option is a string with no whitespace at
    either end: the spellings of a gender that differ by surrounding
    whitespace share one option.  The only rows that have no gender are
    those pandas 3 leaves missing; no option stands for them. *)
Theorem gender_options_cover_rows csv df :
  load_data parse_float repr_float nan_as_text csv = Ok df ->
  exists opts,
    gender_options df = Ok opts /\
    (forall r, In r (rows df) ->
       In (at_col "gender" r) opts \/
       (nan_as_text = false /\ at_col "gender" r = CNaN)) /\
    (forall o, In o opts -> exists s, o = CStr s /\ trimmed s) /\
    (forall r1 r2 s1 s2, In r1 (rows csv) -> In r2 (rows csv) ->
       at_col "gender" r1 = CStr s1 -> at_col "gender" r2 = CStr s2 ->
       strip s1 = strip s2 ->
       exists o, In o opts /\
         at_col "gender" (load_row parse_float repr_float nan_as_text r1) = o /\
         at_col "gender" (load_row parse_float repr_float nan_as_text r2) = o).
Proof.
  intros Hl. destruct (loaded_gender_options _ _ _ _ _ Hl) as [opts Hopts].
  exists opts. split; [assumption|].
  unfold gender_options in Hopts.
  apply bind_Ok in Hopts as (g & Hg & Hopts). apply getcol_inv in Hg as [_ ->].
  apply options_spec in Hopts as [Hsub Hall].
  pose proof (load_data_rows _ _ _ _ _ Hl) as (_ & _ & Hrows).
  assert (forall r, In r (rows df) ->
            In (at_col "gender" r) opts \/
            (nan_as_text = false /\ at_col "gender" r = CNaN)) as Hcover.
  { intros r Hr.
    destruct (loaded_gender_str _ _ _ _ _ _ Hl Hr) as [[s Hs]|Hn]; [left | now right].
    assert (cell_in (at_col "gender" r) opts = true) as Hin.
    { apply Hall; [now apply in_map | now rewrite Hs]. }
    rewrite Hs in *. apply cell_in_spec in Hin as (v & Hv & Heq).
    apply cell_eqb_str in Heq as ->. assumption. }
  split; [exact Hcover|]. split.
  - intros o Ho. apply Hsub in Ho as [Ho Hna].
    apply in_map_iff in Ho as (r & <- & Hr).
    rewrite Hrows in Hr. apply in_map_iff in Hr as (r0 & <- & _).
    rewrite load_row_gender in *.
    destruct (clean_cell_trimmed repr_float nan_as_text (at_col "gender" r0))
      as [H|(_ & _ & H)]; [assumption|].
    rewrite H in Hna. discriminate.
  - intros r1 r2 s1 s2 Hr1 Hr2 Hs1 Hs2 Heq.
    exists (CStr (strip s1)).
    assert (at_col "gender" (load_row parse_float repr_float nan_as_text r1) =
            CStr (strip s1)) as H1 by (now rewrite load_row_gender, Hs1).
    assert (at_col "gender" (load_row parse_float repr_float nan_as_text r2) =
            CStr (strip s1)) as H2 by (now rewrite load_row_gender, Hs2, Heq).
    split; [|split; assumption].
    destruct (Hcover (load_row parse_float repr_float nan_as_text r1))
      as [Hin|[_ Hn]].
    + rewrite Hrows. now apply in_map.
    + now rewrite H1 in Hin.
    + rewrite H1 in Hn. discriminate.
Qed.

End LoaderOrder.

(** ** The further properties on the sample tables *)

Lemma load_data_keeps_shape_employees :
  columns (loaded employees) = columns employees /\
  len (loaded employees) = len employees.
Proof.
  destruct (load_data_keeps_shape parse_decimal repr_integral pandas2 employees
              (loaded employees) employees_load) as (H1 & H2 & _).
  split; assumption.
Defined.

Lemma load_data_idempotent_employees :
  load_data parse_decimal repr_integral pandas2 (loaded employees) = Ok (loaded employees).
Proof.
  exact (load_data_idempotent parse_decimal repr_integral pandas2 employees
           (loaded employees) employees_load).
Defined.

Lemma spellings_load :
  load_data parse_decimal repr_integral pandas2 spellings = Ok (loaded spellings).
Proof. apply loaded_Ok, header_has_loader_cols. Qed.

Lemma load_data_strips_only_spellings :
  exists r' pre suf,
    rows (loaded spellings) !! 1%nat = Some r' /\
    at_col "gender" r' = CStr (strip m_nbsp) /\
    m_nbsp = pre ++ strip m_nbsp ++ suf /\
    all_space pre = true /\ all_space suf = true /\
    strip m_nbsp = txt "M".
Proof.
  destruct (load_data_strips_only parse_decimal repr_integral pandas2 spellings
              (loaded spellings) spellings_load 1%nat
              (employee 2 (CStr m_nbsp) (CStr (txt "Married")) (CNum 2)
                        (CStr (txt "Needs")) (CNum 30))
              "gender" m_nbsp)
    as (r' & pre & suf & H1 & H2 & H3 & H4 & H5 & _).
  - reflexivity.
  - now left.
  - vm_compute. reflexivity.
  - exists r', pre, suf. repeat (split; [assumption|]). vm_compute. reflexivity.
Defined.

(** "M " with a space, "M" with a no-break space and " M" are one gender
    after load. *)
Example spellings_options :
  gender_options (loaded spellings) = Ok [CStr (txt "F"); CStr (txt "M")].
Proof. vm_compute. reflexivity. Qed.

Lemma options_strictly_ascending_sample :
  StronglySorted (fun a b => cell_ltb a b = true) [CStr (txt "F"); CStr (txt "M")] /\
  ~ In CNaN [CStr (txt "F"); CStr (txt "M")].
Proof.
  destruct (options_strictly_ascending
              [CStr (txt "M"); CStr (txt "F"); CNaN; CStr (txt "M")] [CStr (txt "F"); CStr (txt "M")])
    as (H1 & H2 & _).
  - vm_compute. reflexivity.
  - split; assumption.
Defined.

Lemma slider_bounds_employees :
  (1 <= 4)%Z /\
  forall r x, In r (rows (loaded employees)) ->
    at_col "performance_score" r = CNum x ->
    (inject_Z 1 - 1 < x)%Q /\ (x < inject_Z 4 + 1)%Q.
Proof.
  apply (slider_bounds (loaded employees) 1 4); vm_compute; reflexivity.
Defined.

Lemma scenario_narrower_defaults : narrower scenario defaults.
Proof.
  unfold narrower, scenario, defaults. simpl.
  split; [|split; [lia|split; [lia|]]]; intros c H;
    rewrite orb_false_r in H; rewrite H; now rewrite ?orb_true_r.
Qed.

Lemma employees_view w :
  df_f (loaded employees) w =
  Ok (mkDF (columns (loaded employees))
           (List.filter (keeps w) (rows (loaded employees)))).
Proof.
  apply df_f_rows;
    first [apply loaded_header_score | apply loaded_header; simpl; tauto].
Qed.

Lemma view_grows_with_selection_employees :
  List.filter (keeps scenario) (rows (loaded employees))
    `sublist_of` List.filter (keeps defaults) (rows (loaded employees)).
Proof.
  exact (proj1 (view_grows_with_selection (loaded employees) scenario defaults
                  _ _ (employees_view scenario) (employees_view defaults)
                  scenario_narrower_defaults)).
Defined.

Lemma view_refilter_employees :
  exists v12,
    df_f (mkDF (columns (loaded employees))
               (List.filter (keeps scenario) (rows (loaded employees))))
         defaults = Ok v12 /\
    rows v12 = List.filter (fun r => keeps scenario r && keeps defaults r)
                           (rows (loaded employees)).
Proof.
  destruct (view_refilter (loaded employees) scenario defaults _
              (employees_view scenario)) as (v12 & H1 & _ & H2 & _).
  exists v12. split; assumption.
Defined.

Lemma nothing_selected_empty_view_employees :
  List.filter (keeps nobody) (rows (loaded employees)) = [].
Proof.
  exact (nothing_selected_empty_view (loaded employees) nobody _
           (or_introl eq_refl) (employees_view nobody)).
Defined.



Lemma score_distribution_counts_view_employees :
  exists counts,
    (getcol (mkDF (columns (loaded employees))
                  (List.filter (keeps defaults) (rows (loaded employees))))
            "performance_score" ≫=
       fun perf => sort_index (value_counts perf)) = Ok counts /\
    total counts =
    len (mkDF (columns (loaded employees))
              (List.filter (keeps defaults) (rows (loaded employees)))).
Proof.
  destruct (score_distribution_counts_view (loaded employees) defaults _
              (employees_view defaults)) as (counts & H1 & _ & _ & H2).
  exists counts. split; assumption.
Defined.

(** With the default selection each of the four scores has one bar of
    height one. *)
Example employees_score_distribution :
  (getcol (mkDF (columns (loaded employees))
                (List.filter (keeps defaults) (rows (loaded employees))))
          "performance_score" ≫=
     fun perf => sort_index (value_counts perf))
  = Ok [(CNum 1, 1%nat); (CNum 2, 1%nat); (CNum 3, 1%nat); (CNum 4, 1%nat)].
Proof. vm_compute. reflexivity. Qed.

Lemma grouped_charts_show_selected_employees :
  cell_in (CStr (txt "M")) (gender_sel scenario) = true.
Proof.
  apply (proj1 (grouped_charts_show_selected (loaded employees) scenario _
                  [(CStr (txt "M"), CNum 40)] (employees_view scenario))).
  - vm_compute. reflexivity.
  - simpl. tauto.
Defined.

Lemma top_share_bounds_employees :
  exists sel,
    rows_with "performance_score_desc" (CStr (txt "Meets")) (rows employees) sel /\
    float_of_nat 50 = pct (length sel) 4 /\
    (1 <= length sel)%nat /\ (length sel <= 4)%nat /\
    (4 <= length sel * 3)%nat.
Proof.
  destruct (top_share_bounds employees "performance_score_desc"
              [(CStr (txt "Meets"), float_of_nat 50);
               (CStr (txt "Needs"), float_of_nat 25);
               (CStr (txt "PIP"), float_of_nat 25)]
              (CStr (txt "Meets")) (float_of_nat 50))
    as (sel & H1 & H2 & H3 & H4 & H5).
  - vm_compute. reflexivity.
  - reflexivity.
  - exists sel. split; [assumption|].
    change (length (present "performance_score_desc" (rows employees)))
      with 4%nat in *.
    simpl in H5. auto.
Defined.

Lemma header_has_cols rws c : In c header -> c ∈ columns (mkDF header rws).
Proof. intros H. now apply list_elem_of_In. Qed.

Lemma pass_without_scores_crashes_header_only :
  app parse_decimal repr_integral pandas2 header_only scenario =
  ([], Crashed ValueError).
Proof.
  refine (proj2 (pass_without_scores_crashes parse_decimal repr_integral pandas2
                   header_only scenario (loaded header_only) _ _ _)).
  - apply loaded_Ok, header_has_loader_cols.
  - apply header_has_cols. simpl. tauto.
  - intros r Hr.
    rewrite (proj2 (proj2 (load_data_rows _ _ _ _ _
               (loaded_Ok header_only (header_has_loader_cols [])))))
      in Hr.
    destruct Hr.
Defined.

Lemma finished_pass_had_all_columns_employees :
  "absences" ∈ columns employees.
Proof.
  apply (finished_pass_had_all_columns parse_decimal repr_integral pandas2
           employees scenario).
  - vm_compute. reflexivity.
  - simpl. tauto.
Defined.

(** A table with the six validated columns and no absences column passes
    the validation and fails at the third metric. *)
Example no_absences_crashes :
  app parse_decimal repr_integral pandas2 no_absences scenario =
  ([SidebarCount 1 4; MetricCount 1;
    MetricMean "performance_score" (CNum 3);
    MetricMean "satisfaction_level" (CNum 3)],
   Crashed (KeyError "absences")).
Proof. vm_compute. reflexivity. Qed.


Lemma load_data_first_missing_no_salary :
  exists l1 c l2,
    loader_cols = l1 ++ c :: l2 /\ KeyError "salary" = KeyError c /\
    (c ∉ columns no_salary) /\
    forall c', In c' l1 -> c' ∈ columns no_salary.
Proof.
  apply (load_data_first_missing parse_decimal repr_integral pandas2 no_salary).
  vm_compute. reflexivity.
Defined.

Lemma gender_options_cover_rows_spellings :
  exists opts,
    gender_options (loaded spellings) = Ok opts /\
    opts = [CStr (txt "F"); CStr (txt "M")] /\
    (forall r, In r (rows (loaded spellings)) -> In (at_col "gender" r) opts) /\
    (forall o, In o opts -> exists s, o = CStr s /\ trimmed s).
Proof.
  destruct (gender_options_cover_rows parse_decimal repr_integral pandas2 spellings
              (loaded spellings) spellings_load) as (opts & H1 & H2 & H3 & _).
  exists opts. split; [assumption|].
  split; [rewrite spellings_options in H1; now injection H1|].
  split; [|assumption].
  intros r Hr. destruct (H2 r Hr) as [H|[Hv _]]; [exact H | discriminate Hv].
Defined.
